(** * claw-dash API server: request-coalescing cache, handlers and front door

    A shallow embedding of [api-server.js] (the asynchronous server with the
    [withCache] layer).  JavaScript numbers that hold counters and clock
    readings are integers ([Z]); CPU and memory figures are IEEE doubles
    ([float]); [undefined]/[null] are [None]; the [cacheStore] [Map] is a
    [gmap] keyed by strings; a promise is named by the number of the load
    that settles it. *)

From Stdlib Require Import ZArith Floats Ascii String.
From stdpp Require Import gmap strings list.

Local Open Scope Z_scope.
#[local] Set Warnings "-clear-no-such-hyp".

(** ** The cache ([withCache], lines 82-116) *)

Module Cache.
Section WithCache.
(** [V]: cached values, [L]: loader closures, [E]: thrown errors. *)
Context {V L E : Type}.

(** [{ value, timestamp, inFlight }] *)
Record entry := Entry {
  value : option V;
  timestamp : Z;
  inFlight : option nat
}.

(** The body of the [async] arrow of lines 94-107, suspended at
    [await loader()], with the variables it closes over. *)
Record load := Load {
  l_key : string;
  l_existing : option entry;
  l_allowStale : bool;
  l_loader : L
}.

(** How a load promise settles. *)
Inductive settled :=
| Fulfilled (v : option V)
| Rejected (e : E).

(** What a call of [withCache] hands back: [existing.value] at once, or
    the promise of a load. *)
Inductive returned :=
| Now (v : option V)
| Pending (p : nat).

Record state := State {
  cacheStore : gmap string entry;
  loads : gmap nat load;
  settledLoads : gmap nat settled;
  nextLoad : nat;
  loaderCalls : list (string * L)
}.

Definition initial : state :=
  {| cacheStore := ∅; loads := ∅; settledLoads := ∅; nextLoad := 0%nat; loaderCalls := [] |}.

(** [existing?.value] *)
Definition ex_value (existing : option entry) : option V :=
  existing ≫= value.

(** [existing?.timestamp || 0] *)
Definition ex_timestamp (existing : option entry) : Z :=
  from_option timestamp 0 existing.

(** [existing && existing.value !== undefined && now - existing.timestamp < ttlMs] *)
Definition fresh_value (existing : option entry) (now ttlMs : Z) : option V :=
  match existing with
  | Some e =>
      match value e with
      | Some v => if bool_decide (now - timestamp e < ttlMs) then Some v else None
      | None => None
      end
  | None => None
  end.

(** One call of [withCache] up to its [return]; [now] is [Date.now()].
    The loader is an [async] function, as every loader of the server is:
    calling it returns a promise and throws nothing, and the code after
    [await loader()] runs in a later turn of the event loop, once the
    entry carrying [inFlight] is stored.  A loader that calls [withCache]
    before its first [await] does so on another key, which amounts to a
    separate call. *)
Definition withCache (key : string) (ttlMs : Z) (loader : L) (allowStaleOnError : bool)
    (now : Z) (s : state) : returned * state :=
  let existing := cacheStore s !! key in
  match fresh_value existing now ttlMs with
  | Some v => (Now (Some v), s)
  | None =>
      match existing ≫= inFlight with
      | Some p => (Pending p, s)
      | None =>
          let p := nextLoad s in
          (Pending p,
           {| cacheStore :=
                <[key := Entry (ex_value existing) (ex_timestamp existing) (Some p)]>
                  (cacheStore s);
              loads := <[p := Load key existing allowStaleOnError loader]> (loads s);
              settledLoads := settledLoads s;
              nextLoad := S p;
              loaderCalls := loaderCalls s ++ [(key, loader)] |})
      end
  end.

(** The loader's promise fulfils with [v] (lines 96-98); [now] is the
    [Date.now()] of line 97. *)
Definition resolveLoad (p : nat) (v : option V) (now : Z) (s : state) : option state :=
  c ← loads s !! p;
  Some {| cacheStore := <[l_key c := Entry v now None]> (cacheStore s);
          loads := delete p (loads s);
          settledLoads := <[p := Fulfilled v]> (settledLoads s);
          nextLoad := nextLoad s;
          loaderCalls := loaderCalls s |}.

(** [allowStaleOnError && existing && existing.value !== undefined] *)
Definition stale_value (c : load) : option V :=
  if l_allowStale c then ex_value (l_existing c) else None.

(** The loader's promise rejects with [e] (lines 99-106). *)
Definition rejectLoad (p : nat) (e : E) (s : state) : option state :=
  c ← loads s !! p;
  Some
    match stale_value c with
    | Some v =>
        {| cacheStore :=
             <[l_key c := Entry (Some v) (ex_timestamp (l_existing c)) None]> (cacheStore s);
           loads := delete p (loads s);
           settledLoads := <[p := Fulfilled (Some v)]> (settledLoads s);
           nextLoad := nextLoad s;
           loaderCalls := loaderCalls s |}
    | None =>
        {| cacheStore :=
             <[l_key c := Entry (ex_value (l_existing c)) (ex_timestamp (l_existing c)) None]>
               (cacheStore s);
           loads := delete p (loads s);
           settledLoads := <[p := Rejected e]> (settledLoads s);
           nextLoad := nextLoad s;
           loaderCalls := loaderCalls s |}
    end.

(** What the event loop can do next: run a call of [withCache], or resume
    a suspended load whose loader settled. *)
Inductive event :=
| Call (key : string) (ttlMs : Z) (loader : L) (allowStaleOnError : bool) (now : Z)
| Resolve (p : nat) (v : option V) (now : Z)
| Reject (p : nat) (e : E).

Definition step (s : state) (ev : event) : state :=
  match ev with
  | Call key ttlMs loader stale now => (withCache key ttlMs loader stale now s).2
  | Resolve p v now => default s (resolveLoad p v now s)
  | Reject p e => default s (rejectLoad p e s)
  end.

Definition run (evs : list event) (s : state) : state := foldl step s evs.

Definition settles (p : nat) (ev : event) : bool :=
  match ev with
  | Call _ _ _ _ _ => false
  | Resolve q _ _ => bool_decide (q = p)
  | Reject q _ => bool_decide (q = p)
  end.

(** Loader invocations made for [key]. *)
Definition calls_for (key : string) (log : list (string * L)) : list (string * L) :=
  filter (λ c, c.1 = key) log.

(** The loads in flight are exactly the ones the store points at. *)
Record consistent (s : state) : Prop := {
  store_load : ∀ k e p,
    cacheStore s !! k = Some e → inFlight e = Some p →
    ∃ c, loads s !! p = Some c ∧ l_key c = k;
  load_store : ∀ p c,
    loads s !! p = Some c →
    ∃ e, cacheStore s !! l_key c = Some e ∧ inFlight e = Some p;
  load_bound : ∀ p c, loads s !! p = Some c → (p < nextLoad s)%nat
}.

End WithCache.

Arguments entry : clear implicits.
Arguments load : clear implicits.
Arguments settled : clear implicits.
Arguments returned : clear implicits.
Arguments state : clear implicits.
Arguments event : clear implicits.
End Cache.

(** ** JavaScript built-ins the handlers rely on *)

Module Js.

(** A thrown value: its [message] property, and what [String(error)] gives. *)
Record JsError := {
  e_message : option string;
  e_toString : string
}.

(** An awaited operation returns a value or throws. *)
Inductive result (A : Type) :=
| Returns (a : A)
| Throws (e : JsError).
Arguments Returns {A} a.
Arguments Throws {A} e.

(** [x || d] on a number that may be missing: [0] is falsy. *)
Definition or_num (x : option Z) (d : Z) : Z :=
  match x with
  | Some n => if n =? 0 then d else n
  | None => d
  end.

(** [x || d] on a string that may be missing: the empty string is falsy. *)
Definition or_str (x : option string) (d : string) : string :=
  match x with
  | Some s => if String.eqb s "" then d else s
  | None => d
  end.

(** [x || d] where [d] may itself be missing ([null]). *)
Definition or_null {A} (falsy : A → bool) (x : option A) : option A :=
  match x with
  | Some a => if falsy a then None else Some a
  | None => None
  end.

(** [x || d] on a double that may be missing: [0], [-0] and [NaN] are falsy. *)
Definition or_float (x : option float) (d : float) : float :=
  match x with
  | Some f => if (f =? 0)%float || negb (f =? f)%float then d else f
  | None => d
  end.

(** [s.includes(pat)] *)
Fixpoint includes (pat s : string) : bool :=
  String.prefix pat s ||
  match s with
  | EmptyString => false
  | String _ s' => includes pat s'
  end.

(** [s.startsWith(pre)] *)
Definition startsWith (pre s : string) : bool := String.prefix pre s.

(** [s.slice(n)] for [n] within the string. *)
Fixpoint slice (n : nat) (s : string) : string :=
  match n, s with
  | O, _ => s
  | S n', String _ s' => slice n' s'
  | S _, EmptyString => EmptyString
  end.

(** [s.split(':')[0]]: the text before the first colon. *)
Fixpoint split_colon_0 (s : string) : string :=
  match s with
  | EmptyString => EmptyString
  | String c s' => if Ascii.eqb c ":"%char then EmptyString else String c (split_colon_0 s')
  end.

(** [[...new Set(l)]]: duplicates dropped, first occurrences kept in order. *)
Fixpoint dedupe (seen l : list string) : list string :=
  match l with
  | [] => []
  | x :: l' => if bool_decide (x ∈ seen) then dedupe seen l' else x :: dedupe (x :: seen) l'
  end.

(** The properties every plain object inherits from [Object.prototype]:
    methods, and the accessor [__proto__]. *)
Definition Object_prototype : list string :=
  ["constructor"; "__defineGetter__"; "__defineSetter__"; "hasOwnProperty";
   "__lookupGetter__"; "__lookupSetter__"; "isPrototypeOf"; "propertyIsEnumerable";
   "toString"; "valueOf"; "__proto__"; "toLocaleString"].

Definition two52 : float := 4503599627370496%float.

(** [Math.floor] on doubles: below [2^52] in magnitude, adding and
    subtracting [2^52] rounds to an integer, which is then adjusted. *)
Definition Math_floor (x : float) : float :=
  if (abs x <? two52)%float then
    let t := (abs x + two52 - two52)%float in
    if (0 <=? x)%float then (if (x <? t)%float then t - 1 else t)%float
    else (- (if (t <? abs x)%float then t + 1 else t))%float
  else x.

(** [Math.round]: the nearest integer, ties towards plus infinity. *)
Definition Math_round (x : float) : float :=
  if (abs x <? two52)%float then
    let f := Math_floor x in
    let r := (if (x - f <? 0.5)%float then f else f + 1)%float in
    if (r =? 0)%float && (x <? 0)%float then (-0)%float else r
  else x.

(** [arr.sort(compare)]: a stable sort; [before a b] says [compare(a, b) < 0]. *)
Fixpoint sort_insert {A} (before : A → A → bool) (x : A) (l : list A) : list A :=
  match l with
  | [] => [x]
  | y :: l' => if before y x then y :: sort_insert before x l' else x :: y :: l'
  end.

Definition Array_sort {A} (before : A → A → bool) (l : list A) : list A :=
  foldr (sort_insert before) [] l.

End Js.

(** ** The aggregation handlers *)

Module Handlers.
Import Js.

#[export] Instance result_ret : MRet result := λ A a, Returns a.
#[export] Instance result_bind : MBind result := λ A B f m,
  match m with
  | Returns a => f a
  | Throws e => Throws e
  end.
#[export] Instance result_fmap : FMap result := λ A B f m,
  match m with
  | Returns a => Returns (f a)
  | Throws e => Throws e
  end.

(** [formatError]; a thrown value is an object here, so it is truthy. *)
Definition formatError (error : JsError) : string :=
  match e_message error with
  | Some m => if String.eqb m "" then e_toString error else m
  | None => e_toString error
  end.

(** *** Rows of the historical store *)

(** [openclaw_stats(timestamp, sessions, tokens)] *)
Record StatsRow := {
  sr_timestamp : Z;
  sr_sessions : Z;
  sr_tokens : Z
}.

(** [metrics(timestamp, ...)]: the other columns are kept as they come. *)
Record MetricsRow := {
  mr_timestamp : Z;
  mr_columns : list (string * float)
}.

(** A row of the 24-hour average query over [process_metrics]. *)
Record AvgRow := {
  ar_name : string;
  ar_avg_cpu : float;
  ar_avg_ram : float;
  ar_samples : Z
}.

(** *** What the AI-agent CLI and the metrics agent send *)

(** An element of [status.sessions.recent]. *)
Record Session := {
  s_key : option string;
  s_totalTokens : option Z;
  s_model : option string;
  s_percentUsed : option Z;
  s_contextTokens : option Z;
  s_remainingTokens : option Z
}.

(** The fields of [openclaw status --json] that the server reads. *)
Record StatusJson := {
  sj_sessions_count : option Z;
  sj_sessions_recent : list Session;
  sj_sessions_defaults_model : option string;
  sj_memory_chunks : option Z;
  sj_memory_files : option Z;
  sj_gateway_connectLatencyMs : option Z;
  sj_gateway_reachable : bool;
  sj_heartbeat_every : option string;
  sj_channelSummary : list string
}.

(** An element of the metrics agent's [processlist]. *)
Record RawProc := {
  rp_name : option string;
  rp_cpu_percent : option float;
  rp_memory_info_rss : option float
}.

(** *** The payloads *)

(** [{ tokens24h, samples, history }]; [history] is absent when there is no row. *)
Record Tokens24h := {
  t_tokens24h : Z;
  t_samples : Z;
  t_history : option (list StatsRow)
}.

Inductive Status := Running | Down | Unknown.

(** The fields of the status object that only a live call fills in. *)
Record Extended := {
  x_model : string;
  x_contextUsed : Z;
  x_contextTotal : Z;
  x_contextRemaining : Z;
  x_memoryChunks : option Z;
  x_memoryFiles : option Z;
  x_gatewayLatency : option Z;
  x_gatewayStatus : string;
  x_heartbeatInterval : option string;
  x_channels : list string
}.

(** The status object; [None] is a property that is absent. *)
Record OpenClawStats := {
  oc_installed : bool;
  oc_status : Status;
  oc_sessions : option Z;
  oc_tokens : option Z;
  oc_tokens24h : option Z;
  oc_lastUpdated : option Z;
  oc_extended : option Extended;
  oc_cached : option bool;
  oc_error : option string
}.

(** [{ range, count, metrics }] *)
Record History := {
  hi_range : string;
  hi_count : Z;
  hi_metrics : list MetricsRow
}.

(** [checks.database], in its three shapes. *)
Inductive DatabaseCheck :=
| DbOk (latencyMs : Z) (hasData : bool) (lastSampleAgeSec : option Z)
| DbNotInitialized (latencyMs : Z)
| DbFailed (latencyMs : Z) (error : string).

(** [checks.glances] *)
Inductive GlancesCheck :=
| GlancesOk (latencyMs : Z)
| GlancesFailed (latencyMs : Z) (error : string).

(** [checks.openclaw] *)
Inductive OpenclawCheck :=
| OpenclawNotInstalled (latencyMs : Z)
| OpenclawOk (latencyMs : Z)
| OpenclawFailed (latencyMs : Z) (error : string).

Inductive HealthLevel := HealthOk | Degraded.

(** [{ status, timestamp, checks: { api, database, glances, openclaw } }] *)
Record Health := {
  he_status : HealthLevel;
  he_timestamp : Z;
  he_api_uptimeSeconds : Z;
  he_database : DatabaseCheck;
  he_glances : GlancesCheck;
  he_openclaw : OpenclawCheck
}.

(** The [ok] property of a database check. *)
Definition db_ok (c : DatabaseCheck) : bool :=
  match c with
  | DbOk _ _ _ | DbNotInitialized _ => true
  | DbFailed _ _ => false
  end.

(** The [initialized] property of a database check, when it has one. *)
Definition db_initialized (c : DatabaseCheck) : option bool :=
  match c with
  | DbNotInitialized _ => Some false
  | DbOk _ _ _ | DbFailed _ _ => None
  end.

(** [{ name, cpu, ram_mb }], an element of [currentProcs]. *)
Record Proc := {
  p_name : string;
  p_cpu : float;
  p_ram_mb : float
}.

(** [{ cpu, ram, samples }], a value of [avgMap]. *)
Record Hist := {
  h_cpu : float;
  h_ram : float;
  h_samples : Z
}.

Inductive Anomaly := cpu_high | ram_high.

Record Insight := {
  i_name : string;
  i_cpu : float;
  i_ram_mb : float;
  i_avg_cpu : option float;
  i_avg_ram : option float;
  i_anomaly : option Anomaly
}.

(** [{ processes, anomalies, hasHistory }] *)
Record Insights := {
  in_processes : list Insight;
  in_anomalies : list Insight;
  in_hasHistory : bool
}.

(** *** The world a loader runs in: what each awaited operation answers *)

(** The readings of [Date.now()] in [getHealthStatus], by program point. *)
Record HealthClock := {
  dbStart : Z;
  dbDone : Z;
  dbAgeNow : Z;
  glancesStart : Z;
  glancesDone : Z;
  openclawStart : Z;
  openclawDone : Z;
  healthDone : Z
}.

Record World := {
  Date_now : Z;
  process_uptime : Z;
  health_clock : HealthClock;
  (** the [sqlite3] command, by query *)
  sqlite3_openclaw_stats_since : Z → result (list StatsRow);
  sqlite3_openclaw_stats_latest : result (list StatsRow);
  sqlite3_metrics_since : Z → result (list MetricsRow);
  sqlite3_metrics_latest : result (list (option Z));
  sqlite3_process_avg_since : Z → result (list AvgRow);
  (** [fetchGlancesJson] *)
  glances_cpu : result unit;
  glances_processlist : result (list RawProc);
  (** [await getOpenclawPath()] *)
  openclawPath : option string;
  (** [await getOpenClawStatusJson()], the live call of the CLI *)
  openClawStatusJson : result StatusJson;
  (** [await get24HourTokens()], which never rejects *)
  stats24h : Tokens24h
}.

(** [queryDb]: a failed command or unparsable output gives no rows, unless
    [throwOnError]. *)
Definition queryDb {Row} (sqlite3 : result (list Row)) (throwOnError : bool)
    : result (list Row) :=
  match sqlite3 with
  | Returns rows => Returns rows
  | Throws e => if throwOnError then Throws e else Returns []
  end.

(** *** Locating the CLI ([getOpenclawCandidates], [getOpenclawPath]) *)

Definition getOpenclawCandidates (OPENCLAW_PATH : option string) (nvmPath : string)
    : list string :=
  dedupe []
    (omap (λ p : option string, or_null (String.eqb "") p)
       [OPENCLAW_PATH; Some nvmPath; Some "/usr/local/bin/openclaw";
        Some "/opt/homebrew/bin/openclaw"; Some "openclaw"]).

(** The loop of [getOpenclawPath]: [existsSync] is the file system,
    [runsVersion c] says that [c --version] ran without error. *)
Fixpoint probe (existsSync runsVersion : string → bool) (candidates : list string)
    : option string :=
  match candidates with
  | [] => None
  | candidate :: rest =>
      if negb (String.eqb candidate "openclaw") && negb (existsSync candidate)
      then probe existsSync runsVersion rest
      else if runsVersion candidate then Some candidate
      else probe existsSync runsVersion rest
  end.

(** [getOpenclawPath]: probed once, then remembered in [openclawPathPromise]. *)
Definition getOpenclawPath (existsSync runsVersion : string → bool)
    (candidates : list string) (openclawPathPromise : option (option string))
    : option string * option (option string) :=
  match openclawPathPromise with
  | Some found => (found, openclawPathPromise)
  | None =>
      let found := probe existsSync runsVersion candidates in
      (found, Some found)
  end.

(** [Boolean(openclawPath)] *)
Definition Boolean_path (openclawPath : option string) : bool :=
  match openclawPath with
  | Some p => negb (String.eqb p "")
  | None => false
  end.

(** *** [get24HourTokens] *)

Definition tokens24h_of_rows (rows : list StatsRow) : Tokens24h :=
  match rows with
  | [] => {| t_tokens24h := 0; t_samples := 0; t_history := None |}
  | first :: _ =>
      let last := List.last rows first in
      let tokenDelta := sr_tokens last - sr_tokens first in
      {| t_tokens24h := Z.max 0 tokenDelta;
         t_samples := Z.of_nat (length rows);
         t_history := Some rows |}
  end.

Definition get24HourTokens_loader (w : World) : result Tokens24h :=
  let since := Date_now w / 1000 - 86400 in
  rows ← queryDb (sqlite3_openclaw_stats_since w since) false;
  mret (tokens24h_of_rows rows).

(** *** [getOpenClawStats] *)

(** The [try] block. *)
Definition getOpenClawStats_live (w : World) : result OpenClawStats :=
  status ← openClawStatusJson w;
  let recent := sj_sessions_recent status in
  let totalTokens :=
    foldl (λ sum s, sum + or_num (s_totalTokens s) 0) 0 (take 10 recent) in
  let stats24h := stats24h w in
  let mainSession :=
    match List.find (λ s, bool_decide (s_key s = Some "agent:main:main")) recent with
    | Some s => Some s
    | None => head recent
    end in
  mret
    {| oc_installed := true;
       oc_status := Running;
       oc_sessions := Some (or_num (sj_sessions_count status) 0);
       oc_tokens := Some totalTokens;
       oc_tokens24h := Some (t_tokens24h stats24h);
       oc_lastUpdated := Some (Date_now w);
       oc_extended := Some
         {| x_model :=
              or_str (mainSession ≫= s_model)
                (or_str (sj_sessions_defaults_model status) "unknown");
            x_contextUsed := or_num (mainSession ≫= s_percentUsed) 0;
            x_contextTotal := or_num (mainSession ≫= s_contextTokens) 200000;
            x_contextRemaining := or_num (mainSession ≫= s_remainingTokens) 0;
            x_memoryChunks := sj_memory_chunks status;
            x_memoryFiles := sj_memory_files status;
            x_gatewayLatency := or_null (Z.eqb 0) (sj_gateway_connectLatencyMs status);
            x_gatewayStatus :=
              if sj_gateway_reachable status then "connected" else "disconnected";
            x_heartbeatInterval := or_null (String.eqb "") (sj_heartbeat_every status);
            x_channels := sj_channelSummary status |};
       oc_cached := None;
       oc_error := None |}.

(** [{ ...lastKnownOpenClaw, status: 'down', lastUpdated: ..., cached: true }] *)
Definition served_from_snapshot (lastKnown : OpenClawStats) : OpenClawStats :=
  {| oc_installed := oc_installed lastKnown;
     oc_status := Down;
     oc_sessions := oc_sessions lastKnown;
     oc_tokens := oc_tokens lastKnown;
     oc_tokens24h := oc_tokens24h lastKnown;
     oc_lastUpdated := oc_lastUpdated lastKnown;
     oc_extended := oc_extended lastKnown;
     oc_cached := Some true;
     oc_error := oc_error lastKnown |}.

(** The [catch] block. *)
Definition getOpenClawStats_fallback (w : World) (e : JsError)
    (lastKnownOpenClaw : option OpenClawStats) : result OpenClawStats :=
  match lastKnownOpenClaw with
  | Some lastKnown => mret (served_from_snapshot lastKnown)
  | None =>
      rows ← queryDb (sqlite3_openclaw_stats_latest w) false;
      match rows with
      | last :: _ =>
          let stats24h := stats24h w in
          mret
            {| oc_installed := true;
               oc_status := Down;
               oc_sessions := Some (sr_sessions last);
               oc_tokens := Some (sr_tokens last);
               oc_tokens24h := Some (t_tokens24h stats24h);
               oc_lastUpdated := Some (sr_timestamp last * 1000);
               oc_extended := None;
               oc_cached := Some true;
               oc_error := None |}
      | [] =>
          mret
            {| oc_installed := Boolean_path (openclawPath w);
               oc_status := Unknown;
               oc_sessions := None;
               oc_tokens := None;
               oc_tokens24h := None;
               oc_lastUpdated := None;
               oc_extended := None;
               oc_cached := None;
               oc_error := Some (formatError e) |}
      end
  end.

(** The loader of [getOpenClawStats], with the module variable
    [lastKnownOpenClaw] threaded through. *)
Definition getOpenClawStats_loader (w : World) (lastKnownOpenClaw : option OpenClawStats)
    : result OpenClawStats * option OpenClawStats :=
  match getOpenClawStats_live w with
  | Returns stats => (Returns stats, Some stats)
  | Throws e => (getOpenClawStats_fallback w e lastKnownOpenClaw, lastKnownOpenClaw)
  end.

(** *** [getHistory] *)

Definition ranges : gmap string Z :=
  list_to_map [("1h", 3600); ("8h", 28800); ("24h", 86400); ("7d", 604800); ("30d", 2592000)].

(** [Object.prototype.hasOwnProperty.call(ranges, range) ? range : '1h'] *)
Definition normalizedRange (range : string) : string :=
  if bool_decide (is_Some (ranges !! range)) then range else "1h".

Definition getHistory_loader (normalizedRange : string) (w : World) : result History :=
  let seconds := default 0 (ranges !! normalizedRange) in
  let since := Date_now w / 1000 - seconds in
  rows ← queryDb (sqlite3_metrics_since w since) false;
  mret {| hi_range := normalizedRange;
          hi_count := Z.of_nat (length rows);
          hi_metrics := rows |}.

(** *** [getHealthStatus] *)

Definition database_check (w : World) : DatabaseCheck * bool :=
  let c := health_clock w in
  match queryDb (sqlite3_metrics_latest w) true with
  | Returns rows =>
      let lastTs := head rows ≫= id in
      (DbOk (dbDone c - dbStart c)
            (bool_decide (0 < length rows)%nat)
            (match lastTs with
             | Some ts => if ts =? 0 then None else Some (Z.max 0 (dbAgeNow c / 1000 - ts))
             | None => None
             end),
       false)
  | Throws e =>
      let errorText := formatError e in
      if includes "no such table: metrics" errorText
      then (DbNotInitialized (dbDone c - dbStart c), false)
      else (DbFailed (dbDone c - dbStart c) errorText, true)
  end.

Definition glances_check (w : World) : GlancesCheck * bool :=
  let c := health_clock w in
  match glances_cpu w with
  | Returns _ => (GlancesOk (glancesDone c - glancesStart c), false)
  | Throws e => (GlancesFailed (glancesDone c - glancesStart c) (formatError e), true)
  end.

Definition openclaw_check (w : World) : OpenclawCheck * bool :=
  let c := health_clock w in
  if Boolean_path (openclawPath w) then
    match openClawStatusJson w with
    | Returns _ => (OpenclawOk (openclawDone c - openclawStart c), false)
    | Throws e => (OpenclawFailed (openclawDone c - openclawStart c) (formatError e), true)
    end
  else (OpenclawNotInstalled (openclawDone c - openclawStart c), false).

(** The loader of [getHealthStatus]; the second components are the
    assignments [degraded = true]. *)
Definition getHealthStatus_loader (w : World) : result Health :=
  let database := database_check w in
  let glances := glances_check w in
  let openclaw := openclaw_check w in
  let degraded := database.2 || glances.2 || openclaw.2 in
  mret {| he_status := if degraded then Degraded else HealthOk;
          he_timestamp := healthDone (health_clock w);
          he_api_uptimeSeconds := process_uptime w;
          he_database := database.1;
          he_glances := glances.1;
          he_openclaw := openclaw.1 |}.

(** *** [getProcessInsights] *)

(** [(a, b) => (b.cpu_percent || 0) - (a.cpu_percent || 0)] is negative. *)
Definition cpu_before (a b : RawProc) : bool :=
  (or_float (rp_cpu_percent b) 0 - or_float (rp_cpu_percent a) 0 <? 0)%float.

(** The loop over the ten busiest processes, with its [seen] set. *)
Fixpoint collect (seen : gset string) (procs : list RawProc) : list Proc :=
  match procs with
  | [] => []
  | p :: rest =>
      let name := or_str (rp_name p) "unknown" in
      if bool_decide (name ∈ seen) then collect seen rest
      else {| p_name := name;
              p_cpu := or_float (rp_cpu_percent p) 0;
              p_ram_mb := (or_float (rp_memory_info_rss p) 0 / (1024 * 1024))%float |}
           :: collect ({[name]} ∪ seen) rest
  end.

(** [currentProcs]; an unreachable metrics agent leaves it empty. *)
Definition currentProcs (processlist : result (list RawProc)) : list Proc :=
  match processlist with
  | Returns procs => collect ∅ (take 10 (Array_sort cpu_before procs))
  | Throws _ => []
  end.

(** [avgMap], filled row by row: the row objects by name, a later row of
    a name replacing an earlier one.  [avgMap] is a plain object, so the
    assignment under the name [__proto__] makes the row object the
    prototype of [avgMap] instead of a property; reading [__proto__] gives
    the prototype back, so that name too reads as its row. *)
Definition avgMap (historicalAvg : list AvgRow) : gmap string Hist :=
  foldl (λ m row,
           <[ar_name row := {| h_cpu := ar_avg_cpu row;
                               h_ram := ar_avg_ram row;
                               h_samples := ar_samples row |}]> m)
        ∅ historicalAvg.

(** What a property read [avgMap[name]] gives: the object of a row, or a
    value that is no row object and has neither [cpu] nor [ram]
    ([undefined], a number, a function or [Object.prototype] itself), of
    which only the truth value matters. *)
Inductive Property :=
| row_object (hist : Hist)
| no_row (truthy : bool).

(** A double in a condition: [0], [-0] and [NaN] are falsy. *)
Definition truthy_float (x : float) : bool :=
  negb ((x =? 0)%float || negb (x =? x)%float).

(** [avgMap[name]]: the row of that name; failing that, what the
    prototype chain holds: the [cpu], [ram] and [samples] of a row that
    became the prototype, then the members of [Object.prototype]. *)
Definition lookup_avgMap (avgMap : gmap string Hist) (name : string) : Property :=
  match avgMap !! name with
  | Some hist => row_object hist
  | None =>
      match avgMap !! "__proto__" with
      | Some proto =>
          if String.eqb name "cpu" then no_row (truthy_float (h_cpu proto))
          else if String.eqb name "ram" then no_row (truthy_float (h_ram proto))
          else if String.eqb name "samples" then no_row (negb (h_samples proto =? 0))
          else no_row (bool_decide (name ∈ Object_prototype))
      | None => no_row (bool_decide (name ∈ Object_prototype))
      end
  end.

(** [if (hist)] *)
Definition truthy (hist : Property) : bool :=
  match hist with
  | row_object _ => true
  | no_row truthy => truthy
  end.

(** [hist.cpu] and [hist.ram] as numbers: [undefined] is [NaN] in
    arithmetic and in comparisons. *)
Definition hist_cpu (hist : Property) : float :=
  match hist with
  | row_object hist => h_cpu hist
  | no_row _ => nan
  end.

Definition hist_ram (hist : Property) : float :=
  match hist with
  | row_object hist => h_ram hist
  | no_row _ => nan
  end.

(** The anomaly test of lines 620-626. *)
Definition anomaly_of (hist : Property) (proc : Proc) : option Anomaly :=
  if truthy hist then
    if (1 <? hist_cpu hist)%float && (hist_cpu hist * 2 <? p_cpu proc)%float
    then Some cpu_high
    else if (50 <? hist_ram hist)%float && (hist_ram hist * 1.5 <? p_ram_mb proc)%float
         then Some ram_high
         else None
  else None.

Definition insight_of (avgMap : gmap string Hist) (proc : Proc) : Insight :=
  let hist := lookup_avgMap avgMap (p_name proc) in
  {| i_name := p_name proc;
     i_cpu := (Math_round (p_cpu proc * 10) / 10)%float;
     i_ram_mb := Math_round (p_ram_mb proc);
     i_avg_cpu :=
       if truthy hist then Some (Math_round (hist_cpu hist * 10) / 10)%float else None;
     i_avg_ram := if truthy hist then Some (Math_round (hist_ram hist)) else None;
     i_anomaly := anomaly_of hist proc |}.

Definition insights_of (procs : list Proc) (historicalAvg : list AvgRow) : list Insight :=
  insight_of (avgMap historicalAvg) <$> procs.

Definition insights_result (insights : list Insight) (historicalAvg : list AvgRow)
    : Insights :=
  {| in_processes := take 8 insights;
     in_anomalies := filter (λ i, is_Some (i_anomaly i)) insights;
     in_hasHistory := bool_decide (0 < length historicalAvg)%nat |}.

Definition getProcessInsights_loader (w : World) : result Insights :=
  let currentProcs := currentProcs (glances_processlist w) in
  let since24h := Date_now w / 1000 - 86400 in
  historicalAvg ← queryDb (sqlite3_process_avg_since w since24h) false;
  mret (insights_result (insights_of currentProcs historicalAvg) historicalAvg).

(** *** The handlers behind the cache *)

(** The loader closures handed to [withCache]; the one of [getHistory]
    closes over [normalizedRange]. *)
Inductive Loader :=
| Tokens24hLoader
| OpenClawStatsLoader
| HistoryLoader (normalizedRange : string)
| HealthLoader
| ProcessInsightsLoader.

Inductive Payload :=
| PTokens24h (t : Tokens24h)
| POpenClawStats (s : OpenClawStats)
| PHistory (h : History)
| PHealth (h : Health)
| PInsights (i : Insights).

(** Running a loader in a world; only [getOpenClawStats] writes
    [lastKnownOpenClaw]. *)
Definition run_loader (l : Loader) (w : World) (lastKnownOpenClaw : option OpenClawStats)
    : result Payload * option OpenClawStats :=
  match l with
  | Tokens24hLoader => (PTokens24h <$> get24HourTokens_loader w, lastKnownOpenClaw)
  | OpenClawStatsLoader =>
      let r := getOpenClawStats_loader w lastKnownOpenClaw in
      (POpenClawStats <$> r.1, r.2)
  | HistoryLoader normalizedRange =>
      (PHistory <$> getHistory_loader normalizedRange w, lastKnownOpenClaw)
  | HealthLoader => (PHealth <$> getHealthStatus_loader w, lastKnownOpenClaw)
  | ProcessInsightsLoader => (PInsights <$> getProcessInsights_loader w, lastKnownOpenClaw)
  end.

Definition get24HourTokens (now : Z) (s : Cache.state Payload Loader JsError) :=
  Cache.withCache "openclaw-24h-tokens" 15000 Tokens24hLoader false now s.

Definition getOpenClawStats (now : Z) (s : Cache.state Payload Loader JsError) :=
  Cache.withCache "openclaw-stats" 10000 OpenClawStatsLoader false now s.

Definition getHistory (range : string) (now : Z) (s : Cache.state Payload Loader JsError) :=
  Cache.withCache (String.append "history:" (normalizedRange range)) 5000
    (HistoryLoader (normalizedRange range)) false now s.

Definition getHealthStatus (now : Z) (s : Cache.state Payload Loader JsError) :=
  Cache.withCache "health" 5000 HealthLoader false now s.

Definition getProcessInsights (now : Z) (s : Cache.state Payload Loader JsError) :=
  Cache.withCache "process-insights" 10000 ProcessInsightsLoader false now s.

(** A suspended load resumes once its loader has run in world [w]. *)
Definition settle (p : nat) (w : World) (lastKnownOpenClaw : option OpenClawStats)
    (s : Cache.state Payload Loader JsError)
    : option (Cache.state Payload Loader JsError * option OpenClawStats) :=
  c ← Cache.loads s !! p;
  let r := run_loader (Cache.l_loader c) w lastKnownOpenClaw in
  match r.1 with
  | Returns v => s' ← Cache.resolveLoad p (Some v) (Date_now w) s; Some (s', r.2)
  | Throws e => s' ← Cache.rejectLoad p e s; Some (s', r.2)
  end.

End Handlers.

(** ** The earlier, synchronous server

    The repository also holds the version of [api-server.js] that came
    before the cache: its [getHistory] falls back to one hour for an
    unknown range but reports the range as it was given, and it reads
    [ranges] without testing for an own property. *)

Module Legacy.
Import Js Handlers.

(** [ranges[range] || 3600] on the object literal; [None] is a value that
    is no number: a name inherited from [Object.prototype] reads as a
    function or an object, which is truthy. *)
Definition seconds_of (range : string) : option Z :=
  match ranges !! range with
  | Some seconds => Some (if seconds =? 0 then 3600 else seconds)
  | None => if bool_decide (range ∈ Object_prototype) then None else Some 3600
  end.

(** With [seconds] no number, [since] is [NaN] and the query text reads
    [timestamp > NaN]: [sqlite3] knows no such column and fails, and the
    [queryDb] of this server answers every failure with no rows. *)
Definition getHistory (range : string) (w : World) : History :=
  let rows :=
    match seconds_of range with
    | Some seconds =>
        let since := Date_now w / 1000 - seconds in
        match sqlite3_metrics_since w since with
        | Returns rows => rows
        | Throws _ => []
        end
    | None => []
    end in
  {| hi_range := range; hi_count := Z.of_nat (length rows); hi_metrics := rows |}.

End Legacy.

(** ** The HTTP front door *)

Module Server.
Import Js Handlers.

Definition ALLOWED_GLANCES_ENDPOINTS : list string :=
  ["cpu"; "mem"; "fs"; "load"; "network"; "processlist"; "uptime"].

(** What the listener reads of a request: the method, the path and the
    [range] parameter of the parsed URL, and two headers. *)
Record Request := {
  method : string;
  url_pathname : string;
  url_range : option string;
  headers_origin : option string;
  headers_host : option string
}.

(** What [fetchWithTimeout] got from the metrics agent. *)
Record GlancesResponse := {
  gr_ok : bool;
  gr_status : string;
  gr_contentType : option string;
  gr_text : result string
}.

(** What each [await] of the listener yields.  The cron, token and
    connection handlers and the quote are kept as the JSON text they send. *)
Record Awaited := {
  aw_openclaw : result OpenClawStats;
  aw_tokens24h : result Tokens24h;
  aw_history : string → result History;
  aw_cron : result string;
  aw_tokens : result string;
  aw_connections : result string;
  aw_quote : string;
  aw_processes : result Insights;
  aw_health : result Health;
  aw_glances : string → result GlancesResponse
}.

Inductive Body :=
| NoBody
| ErrorBody (error : string) (detail : option string)
| OpenClawBody (stats : OpenClawStats)
| Tokens24hBody (stats24h : Tokens24h)
| HistoryBody (history : History)
| JobsBody (jobs : string)
| TokensBody (breakdown : string)
| ConnectionsBody (connections : string)
| QuoteBody (quote : string)
| InsightsBody (insights : Insights)
| HealthBody (health : Health)
| Verbatim (text : string).

Record Response := {
  statusCode : Z;
  headers : list (string * string);
  body : Body
}.

(** The request as it arrives: [req.method], the request target
    [req.url], and two headers. *)
Record IncomingMessage := {
  im_method : string;
  im_url : string;
  im_headers_origin : option string;
  im_headers_host : option string
}.

Definition localHosts : list string := ["localhost"; "127.0.0.1"; "::1"; "[::1]"].

(** [sendJson]: [hs] are the headers set on [res] so far. *)
Definition sendJson (hs : list (string * string)) (statusCode : Z) (payload : Body)
    : Response :=
  {| statusCode := statusCode;
     headers := hs ++ [("Content-Type", "application/json; charset=utf-8")];
     body := payload |}.

Definition glancesPath (pathname : string) : option string :=
  if startsWith "/api/glances/" pathname then Some (slice 13 pathname)
  else if startsWith "/glances/" pathname then Some (slice 9 pathname)
  else None.

Definition proxyGlancesEndpoint (hs : list (string * string)) (a : Awaited)
    (endpoint : string) : Response :=
  if bool_decide (endpoint ∈ ALLOWED_GLANCES_ENDPOINTS) then
    match aw_glances a endpoint with
    | Returns response =>
        if gr_ok response then
          match gr_text response with
          | Returns text =>
              {| statusCode := 200;
                 headers := hs ++ [("Content-Type",
                                    or_str (gr_contentType response)
                                      "application/json; charset=utf-8")];
                 body := Verbatim text |}
          | Throws _ => sendJson hs 502 (ErrorBody "Failed to reach Glances" None)
          end
        else sendJson hs 502
               (ErrorBody (String.append "Glances returned " (gr_status response)) None)
    | Throws _ => sendJson hs 502 (ErrorBody "Failed to reach Glances" None)
    end
  else sendJson hs 404 (ErrorBody "Glances endpoint not found" None).

(** The chain of path tests inside the [try] of the listener. *)
Definition route (req : Request) (a : Awaited) : result (Z * Body) :=
  let pathname := url_pathname req in
  let path_is p1 p2 := String.eqb pathname p1 || String.eqb pathname p2 in
  if path_is "/openclaw" "/api/openclaw" then
    stats ← aw_openclaw a; mret (200, OpenClawBody stats)
  else if path_is "/openclaw/history" "/api/openclaw/history" then
    stats24h ← aw_tokens24h a; mret (200, Tokens24hBody stats24h)
  else if path_is "/history" "/api/history" then
    let range := or_str (url_range req) "1h" in
    history ← aw_history a range; mret (200, HistoryBody history)
  else if path_is "/cron" "/api/cron" then
    jobs ← aw_cron a; mret (200, JobsBody jobs)
  else if path_is "/tokens" "/api/tokens" then
    breakdown ← aw_tokens a; mret (200, TokensBody breakdown)
  else if path_is "/connections" "/api/connections" then
    connections ← aw_connections a; mret (200, ConnectionsBody connections)
  else if path_is "/quote" "/api/quote" then
    mret (200, QuoteBody (aw_quote a))
  else if path_is "/processes" "/api/processes" then
    insights ← aw_processes a; mret (200, InsightsBody insights)
  else if path_is "/health" "/api/health" then
    health ← aw_health a; mret (200, HealthBody health)
  else mret (404, ErrorBody "Not found" None).

Section FrontDoor.
(** [new URL(origin).hostname], or [None] when the constructor throws. *)
Variable URL_hostname : string → option string.

Definition getAllowedOrigin (req : Request) : option string :=
  match headers_origin req with
  | None => None
  | Some origin =>
      if String.eqb origin "" then None
      else
        match URL_hostname origin with
        | Some hostname =>
            let requestHost := split_colon_0 (or_str (headers_host req) "") in
            if bool_decide (hostname ∈ localHosts) then Some origin
            else if negb (String.eqb requestHost "") && String.eqb hostname requestHost
                 then Some origin
                 else None
        | None => None
        end
  end.

(** The request listener on a request as read: lines 643-660, which do
    not look at the target, and lines 663-700 on the URL that line 662
    parsed. *)
Definition server (req : Request) (a : Awaited) : Response :=
  let allowedOrigin := getAllowedOrigin req in
  let hs :=
    match allowedOrigin with
    | Some origin => [("Access-Control-Allow-Origin", origin); ("Vary", "Origin")]
    | None => []
    end
    ++ [("Access-Control-Allow-Methods", "GET, OPTIONS");
        ("Access-Control-Allow-Headers", "Content-Type")] in
  if String.eqb (method req) "OPTIONS" then
    {| statusCode := match allowedOrigin with Some _ => 204 | None => 403 end;
       headers := hs;
       body := NoBody |}
  else if negb (String.eqb (method req) "GET") then
    sendJson hs 405 (ErrorBody "Method not allowed" None)
  else
    match or_null (String.eqb "") (glancesPath (url_pathname req)) with
    | Some endpoint => proxyGlancesEndpoint hs a endpoint
    | None =>
        match route req a with
        | Returns (statusCode, payload) => sendJson hs statusCode payload
        | Throws e =>
            sendJson hs 500 (ErrorBody "Internal server error" (Some (formatError e)))
        end
    end.

(** [new URL(req.url, base)]: the [pathname] and the [range] search
    parameter, or [None] when the constructor throws. *)
Variable URL_parse : string → option (string * option string).

(** The request listener on a request as it arrives.  Only a [GET]
    reaches line 662, and the parse there stands outside the [try]: when
    it throws, the listener's promise rejects with nothing written, and
    the request gets no response ([None]). *)
Definition listener (req : IncomingMessage) (a : Awaited) : option Response :=
  let read url :=
    {| method := im_method req; url_pathname := url.1; url_range := url.2;
       headers_origin := im_headers_origin req; headers_host := im_headers_host req |} in
  if String.eqb (im_method req) "OPTIONS" || negb (String.eqb (im_method req) "GET")
  then Some (server (read ("", None)) a)
  else url ← URL_parse (im_url req); Some (server (read url) a).

End FrontDoor.

(** The value of a response header, if it was sent. *)
Definition header (name : string) (res : Response) : option string :=
  snd <$> List.find (λ h, String.eqb h.1 name) (headers res).

(** A reading of [new URL(origin).hostname] for origins of the shape
    [scheme://host], [scheme://host:port] written in lower case, with
    [host] a name, an IPv4 address or a bracketed IPv6 address; it stands
    in for the runtime's parser in the examples. *)
Fixpoint after_scheme (s : string) : option string :=
  if startsWith "://" s then Some (slice 3 s)
  else match s with
       | EmptyString => None
       | String _ s' => after_scheme s'
       end.

Fixpoint host_part (bracketed : bool) (s : string) : string :=
  match s with
  | EmptyString => EmptyString
  | String c s' =>
      if bracketed then
        (if Ascii.eqb c "]"%char then String c EmptyString
         else String c (host_part true s'))
      else if Ascii.eqb c ":"%char || Ascii.eqb c "/"%char then EmptyString
           else String c (host_part false s')
  end.

Definition origin_hostname (origin : string) : option string :=
  match after_scheme origin with
  | Some rest =>
      let h := host_part (startsWith "[" rest) rest in
      if String.eqb h "" then None else Some h
  | None => None
  end.

(** A reading of [new URL(target, base)] for targets that are an absolute
    path without query or fragment, and for the target [//], which names
    a host and gives none, so that the constructor throws.  It stands in
    for the runtime's parser in the examples. *)
Definition target_parse (target : string) : option (string * option string) :=
  if String.eqb target "//" then None else Some (target, None).

End Server.

(** ** Sample data for the examples *)

Module Samples.
Import Js Handlers Server.

Definition no_such_table : JsError :=
  {| e_message := Some "Command failed: sqlite3 -json history.db: no such table: metrics";
     e_toString := "Error: Command failed" |}.

Definition refused : JsError :=
  {| e_message := Some "fetch failed"; e_toString := "TypeError: fetch failed" |}.

Definition not_found : JsError :=
  {| e_message := Some "openclaw not found"; e_toString := "Error: openclaw not found" |}.

Definition clock : HealthClock :=
  {| dbStart := 1000; dbDone := 1012; dbAgeNow := 1012; glancesStart := 1012;
     glancesDone := 1020; openclawStart := 1020; openclawDone := 1021; healthDone := 1021 |}.

Definition proc (name : string) (cpu : float) : RawProc :=
  {| rp_name := Some name; rp_cpu_percent := Some cpu; rp_memory_info_rss := Some 1048576%float |}.

(** Ten processes with distinct names; [backup] is the ninth by CPU. *)
Definition ten_processes : list RawProc :=
  [proc "node" 50; proc "chrome" 95; proc "code" 80; proc "python" 70; proc "slack" 60;
   proc "mail" 40; proc "finder" 30; proc "backup" 12; proc "dock" 20; proc "sshd" 5]%float.

(** A store without the [metrics] table and without usage rows, whose
    process history knows [backup] alone; a metrics agent that answers;
    and no CLI. *)
Definition fresh_install : World :=
  {| Date_now := 1700000000000;
     process_uptime := 42;
     health_clock := clock;
     sqlite3_openclaw_stats_since := λ _, Returns [];
     sqlite3_openclaw_stats_latest := Returns [];
     sqlite3_metrics_since := λ _, Throws no_such_table;
     sqlite3_metrics_latest := Throws no_such_table;
     sqlite3_process_avg_since := λ _,
       Returns [{| ar_name := "backup"; ar_avg_cpu := 2; ar_avg_ram := 1; ar_samples := 6 |}];
     glances_cpu := Returns ();
     glances_processlist := Returns ten_processes;
     openclawPath := None;
     openClawStatusJson := Throws not_found;
     stats24h := {| t_tokens24h := 0; t_samples := 0; t_history := None |} |}.

(** Every handler answers with nothing of interest. *)
Definition quiet : Awaited :=
  {| aw_openclaw := Throws not_found;
     aw_tokens24h := Returns {| t_tokens24h := 0; t_samples := 0; t_history := None |};
     aw_history := λ range, Returns {| hi_range := range; hi_count := 0; hi_metrics := [] |};
     aw_cron := Returns "[]";
     aw_tokens := Returns "{}";
     aw_connections := Returns "[]";
     aw_quote := "{}";
     aw_processes := Throws refused;
     aw_health := Throws refused;
     aw_glances := λ _, Throws refused |}.

Definition request (method pathname : string) (origin host : option string) : Request :=
  {| method := method; url_pathname := pathname; url_range := None;
     headers_origin := origin; headers_host := host |}.

Definition incoming (method target : string) : IncomingMessage :=
  {| im_method := method; im_url := target;
     im_headers_origin := None; im_headers_host := Some "127.0.0.1:8889" |}.

(** The CLI answers: one main session and one other. *)
Definition live_status : StatusJson :=
  {| sj_sessions_count := Some 2;
     sj_sessions_recent :=
       [{| s_key := Some "agent:cron:daily"; s_totalTokens := Some 1200;
           s_model := Some "claude-sonnet-4"; s_percentUsed := Some 3;
           s_contextTokens := Some 200000; s_remainingTokens := Some 194000 |};
        {| s_key := Some "agent:main:main"; s_totalTokens := Some 48000;
           s_model := Some "claude-opus-4-5"; s_percentUsed := Some 24;
           s_contextTokens := Some 200000; s_remainingTokens := Some 152000 |}];
     sj_sessions_defaults_model := Some "claude-opus-4-5";
     sj_memory_chunks := Some 12;
     sj_memory_files := Some 3;
     sj_gateway_connectLatencyMs := Some 8;
     sj_gateway_reachable := true;
     sj_heartbeat_every := Some "30m";
     sj_channelSummary := [] |}.

Definition live_world : World :=
  {| Date_now := 1700000000000;
     process_uptime := 42;
     health_clock := clock;
     sqlite3_openclaw_stats_since := λ _, Returns [];
     sqlite3_openclaw_stats_latest := Returns [];
     sqlite3_metrics_since := λ _, Returns [];
     sqlite3_metrics_latest := Returns [];
     sqlite3_process_avg_since := λ _, Returns [];
     glances_cpu := Returns ();
     glances_processlist := Returns ten_processes;
     openclawPath := Some "/usr/local/bin/openclaw";
     openClawStatusJson := Returns live_status;
     stats24h := {| t_tokens24h := 900; t_samples := 4; t_history := None |} |}.

(** The same world with two samples in the last hour of [metrics]. *)
Definition two_samples : list MetricsRow :=
  [{| mr_timestamp := 1699999000; mr_columns := [("cpu", 12.5%float)] |};
   {| mr_timestamp := 1699999060; mr_columns := [("cpu", 14%float)] |}].

Definition sampled_world : World :=
  {| Date_now := 1700000000000;
     process_uptime := 42;
     health_clock := clock;
     sqlite3_openclaw_stats_since := λ _, Returns [];
     sqlite3_openclaw_stats_latest := Returns [];
     sqlite3_metrics_since := λ _, Returns two_samples;
     sqlite3_metrics_latest := Returns [Some 1699999060];
     sqlite3_process_avg_since := λ _, Returns [];
     glances_cpu := Returns ();
     glances_processlist := Returns ten_processes;
     openclawPath := Some "/usr/local/bin/openclaw";
     openClawStatusJson := Returns live_status;
     stats24h := {| t_tokens24h := 900; t_samples := 4; t_history := None |} |}.

(** What the live call returns in that world. *)
Definition live_stats : OpenClawStats :=
  {| oc_installed := true;
     oc_status := Running;
     oc_sessions := Some 2;
     oc_tokens := Some 49200;
     oc_tokens24h := Some 900;
     oc_lastUpdated := Some 1700000000000;
     oc_extended := Some {| x_model := "claude-opus-4-5";
                            x_contextUsed := 24;
                            x_contextTotal := 200000;
                            x_contextRemaining := 152000;
                            x_memoryChunks := Some 12;
                            x_memoryFiles := Some 3;
                            x_gatewayLatency := Some 8;
                            x_gatewayStatus := "connected";
                            x_heartbeatInterval := Some "30m";
                            x_channels := [] |};
     oc_cached := None;
     oc_error := None |}.

(** Output of [lsof -i -P]: two connections of one process to one peer, a
    local one, a listening socket and an IPv6 one. *)
Definition lsof_output : string :=
  "COMMAND   PID USER   FD   TYPE DEVICE SIZE/OFF NODE NAME
node     123 me   20u  IPv4 0x1      0t0  TCP 192.168.50.2:59113->17.42.251.72:993 (ESTABLISHED)
node     123 me   21u  IPv4 0x1      0t0  TCP 192.168.50.2:59114->17.42.251.72:443 (ESTABLISHED)
Mail     55 me   21u  IPv4 0x1      0t0  TCP 127.0.0.1:59114->127.0.0.1:443 (ESTABLISHED)
sshd     9 root   3u  IPv4 0x1      0t0  TCP *:22 (LISTEN)
curl     77 me   21u  IPv6 0x1      0t0  TCP [fd00::2]:5000->[2001:1::1]:443 (ESTABLISHED)
".

(** Two runs of the cache on concrete data: values are integers, loaders
    and errors are named by strings.  A first load of [health] succeeds;
    later, while a second one is in flight, other calls overlap it. *)
Definition demo_first_load : list (Cache.event Z string string) :=
  [Cache.Call "health" 5000 "health-loader" true 0; Cache.Resolve 0 (Some 7) 40].

Definition demo_overlap : list (Cache.event Z string string) :=
  [Cache.Call "health" 5000 "health-loader" true 6001;
   Cache.Call "cron-jobs" 15000 "cron-loader" false 6002;
   Cache.Resolve 2 (Some 11) 6003;
   Cache.Call "health" 1000 "health-loader" true 6004].

End Samples.

(** ** String built-ins used by the remaining handlers

    Strings are sequences of bytes; the functions below act on ASCII as
    the built-ins do, which is what the tools' output consists of. *)

Module Text.
Import Js.

(** [toLowerCase] on one character. *)
Definition lower (c : ascii) : ascii :=
  let n := nat_of_ascii c in
  if (65 <=? n)%nat && (n <=? 90)%nat then ascii_of_nat (n + 32) else c.

(** [s.toLowerCase()] *)
Fixpoint toLowerCase (s : string) : string :=
  match s with
  | EmptyString => EmptyString
  | String c s' => String (lower c) (toLowerCase s')
  end.

(** White space and line terminators, as [\s] and [trim] see them. *)
Definition is_space (c : ascii) : bool :=
  let n := nat_of_ascii c in
  ((9 <=? n)%nat && (n <=? 13)%nat) || (n =? 32)%nat.

Definition is_digit (c : ascii) : bool :=
  let n := nat_of_ascii c in
  (48 <=? n)%nat && (n <=? 57)%nat.

Fixpoint trimStart (s : string) : string :=
  match s with
  | EmptyString => EmptyString
  | String c s' => if is_space c then trimStart s' else s
  end.

Fixpoint trimEnd (s : string) : string :=
  match s with
  | EmptyString => EmptyString
  | String c s' =>
      let t := trimEnd s' in
      if is_space c && String.eqb t "" then EmptyString else String c t
  end.

(** [s.trim()] *)
Definition trim (s : string) : string := trimEnd (trimStart s).

(** [s.split(sep)] for a separator of one character. *)
Fixpoint split_char (sep : ascii) (s : string) : list string :=
  match s with
  | EmptyString => [EmptyString]
  | String c s' =>
      let r := split_char sep s' in
      if Ascii.eqb c sep then EmptyString :: r
      else match r with
           | h :: t => String c h :: t
           | [] => [String c EmptyString]
           end
  end.

(** [s.split(/\s+/)]; [gap] says that the character before was white space. *)
Fixpoint split_spaces (gap : bool) (s : string) : list string :=
  match s with
  | EmptyString => [EmptyString]
  | String c s' =>
      if is_space c then
        (if gap then split_spaces true s' else EmptyString :: split_spaces true s')
      else
        match split_spaces false s' with
        | h :: t => String c h :: t
        | [] => [String c EmptyString]
        end
  end.

(** [s.indexOf(c)], or [None] for [-1]. *)
Fixpoint indexOf (c : ascii) (s : string) : option nat :=
  match s with
  | EmptyString => None
  | String c' s' => if Ascii.eqb c' c then Some O else S <$> indexOf c s'
  end.

(** The longest prefix of characters that satisfy [keep], and the rest. *)
Fixpoint span (keep : ascii → bool) (s : string) : string * string :=
  match s with
  | EmptyString => (EmptyString, EmptyString)
  | String c s' =>
      if keep c then let r := span keep s' in (String c r.1, r.2)
      else (EmptyString, s)
  end.

(** [/->([^:]+):(\d+)/] tried where the text after an arrow begins: the
    first group can only end at the first colon. *)
Definition match_after_arrow (rest : string) : option (string * string) :=
  let host := span (λ c, negb (Ascii.eqb c ":"%char)) rest in
  if String.eqb host.1 "" then None
  else
    match host.2 with
    | String _ after_colon =>
        let port := span is_digit after_colon in
        if String.eqb port.1 "" then None else Some (host.1, port.1)
    | EmptyString => None
    end.

(** [s.match(/->([^:]+):(\d+)/)]: the leftmost arrow at which the pattern
    matches gives the two groups. *)
Fixpoint match_arrow (s : string) : option (string * string) :=
  match s with
  | EmptyString => None
  | String _ s' =>
      if startsWith "->" s then
        match match_after_arrow (slice 2 s) with
        | Some groups => Some groups
        | None => match_arrow s'
        end
      else match_arrow s'
  end.

(** [parseInt(digits, 10)] on a string of decimal digits. *)
Definition parseInt (digits : string) : Z :=
  foldl (λ n c, 10 * n + (Z.of_nat (nat_of_ascii c) - 48)) 0 (list_ascii_of_string digits).

End Text.

(** ** The remaining handlers *)

Module MoreHandlers.
Import Js Handlers Text.

(** *** [getOpenClawStatusJson] *)

(** Lines 219-220: what stands before the first brace is dropped. *)
Definition strip_prefix (result : string) : string :=
  match indexOf "{"%char result with
  | Some jsonStart => slice jsonStart result
  | None => result
  end.

(** The loader of [getOpenClawStatusJson]: [stdout] is what
    [openclaw status --json] printed, [JSON_parse] the runtime's parser. *)
Definition getOpenClawStatusJson_loader (openclawPath : option string)
    (stdout : result string) (JSON_parse : string → result StatusJson) : result StatusJson :=
  if Boolean_path openclawPath then
    result ← stdout; JSON_parse (strip_prefix result)
  else Throws {| e_message := Some "openclaw not found";
                 e_toString := "Error: openclaw not found" |}.

(** *** [resolvePricing] *)

Record Rate := {
  rate_input : float;
  rate_output : float
}.

Definition PRICING : gmap string Rate :=
  list_to_map
    [("claude-opus-4-5", {| rate_input := 15; rate_output := 75 |});
     ("claude-sonnet-4", {| rate_input := 3; rate_output := 15 |});
     ("claude-3-5-sonnet", {| rate_input := 3; rate_output := 15 |});
     ("default", {| rate_input := 15; rate_output := 75 |})].

Definition pricingRules : list (string * (string → bool)) :=
  [("claude-opus-4-5", λ value, includes "opus-4-5" value);
   ("claude-sonnet-4", λ value, includes "sonnet-4" value);
   ("claude-3-5-sonnet", λ value, includes "3-5-sonnet" value || includes "3.5-sonnet" value)].

(** [{ modelFamily, pricing }] *)
Definition resolvePricing (model : option string) : string * option Rate :=
  let normalized := toLowerCase (or_str model "") in
  match List.find (λ rule, rule.2 normalized) pricingRules with
  | Some rule => (rule.1, PRICING !! rule.1)
  | None => ("default", PRICING !! "default")
  end.

(** *** [getTokenBreakdown] *)

(** A token count as a double; exact below [2^53]. *)
Definition Number (n : Z) : float :=
  if n <? 0 then (- of_uint63 (Uint63.of_Z (- n)))%float
  else of_uint63 (Uint63.of_Z n).

(** The breakdown; absent properties are [None]. *)
Record TokenBreakdown := {
  tb_input : float;
  tb_output : float;
  tb_total : Z;
  tb_model : option string;
  tb_pricingModel : option string;
  tb_estimateLabel : string;
  tb_cost_input : option float;
  tb_cost_output : option float;
  tb_cost_total : float
}.

Definition estimatedInput (totalTokens : Z) : float :=
  Math_round (Number totalTokens * 0.25)%float.

Definition estimatedOutput (totalTokens : Z) : float :=
  Math_round (Number totalTokens * 0.75)%float.

(** The split of a total compared with integer rounding: the quarter and
    the three quarters, each to the nearest integer, halves up. *)
Definition split_checked (totalTokens : Z) : bool :=
  (estimatedInput totalTokens =? Number ((totalTokens + 2) / 4))%float
  && (estimatedOutput totalTokens =? Number ((3 * totalTokens + 2) / 4))%float
  && ((totalTokens + 2) / 4 + (3 * totalTokens + 2) / 4
      =? totalTokens + (if totalTokens mod 4 =? 2 then 1 else 0)).

(** The [catch] of [getTokenBreakdown]. *)
Definition breakdown_unavailable : TokenBreakdown :=
  {| tb_input := 0;
     tb_output := 0;
     tb_total := 0;
     tb_model := None;
     tb_pricingModel := None;
     tb_estimateLabel := "Estimate unavailable (OpenClaw status not reachable)";
     tb_cost_input := None;
     tb_cost_output := None;
     tb_cost_total := 0 |}.

(** The loader of [getTokenBreakdown]; [status] is what
    [await getOpenClawStatusJson()] gave.  Reading a rate off a missing
    [pricing] would throw, and be caught like a failed status call. *)
Definition getTokenBreakdown_loader (status : result StatusJson) : TokenBreakdown :=
  match status with
  | Returns status =>
      let recent := sj_sessions_recent status in
      let model :=
        or_str (head recent ≫= s_model)
          (or_str (sj_sessions_defaults_model status) "default") in
      let totalTokens :=
        foldl (λ sum session, sum + or_num (s_totalTokens session) 0) 0 (take 10 recent) in
      let resolved := resolvePricing (Some model) in
      match resolved.2 with
      | Some pricing =>
          let inputCost :=
            (estimatedInput totalTokens / 1000000 * rate_input pricing)%float in
          let outputCost :=
            (estimatedOutput totalTokens / 1000000 * rate_output pricing)%float in
          {| tb_input := estimatedInput totalTokens;
             tb_output := estimatedOutput totalTokens;
             tb_total := totalTokens;
             tb_model := Some model;
             tb_pricingModel := Some resolved.1;
             tb_estimateLabel := "Estimated from total tokens (25% input / 75% output split)";
             tb_cost_input := Some inputCost;
             tb_cost_output := Some outputCost;
             tb_cost_total := (inputCost + outputCost)%float |}
      | None => breakdown_unavailable
      end
  | Throws _ => breakdown_unavailable
  end.

(** *** [getCronJobs] *)

(** An element of [data.jobs], with the properties the server reads. *)
Record CronJobJson := {
  cj_id : option string;
  cj_name : option string;
  cj_enabled : option bool;
  cj_schedule_expr : option string;
  cj_schedule_kind : option string;
  cj_state_nextRunAtMs : option Z;
  cj_state_lastRunAtMs : option Z;
  cj_state_lastStatus : option string
}.

Record CronJob := {
  job_id : option string;
  job_name : string;
  job_enabled : option bool;
  job_schedule : string;
  job_nextRun : option Z;
  job_lastRun : option Z;
  job_lastStatus : option string
}.

Definition normalize_job (job : CronJobJson) : CronJob :=
  {| job_id := cj_id job;
     job_name := or_str (cj_name job) "Unnamed";
     job_enabled := cj_enabled job;
     job_schedule :=
       or_str (cj_schedule_expr job) (or_str (cj_schedule_kind job) "unknown");
     job_nextRun := or_null (Z.eqb 0) (cj_state_nextRunAtMs job);
     job_lastRun := or_null (Z.eqb 0) (cj_state_lastRunAtMs job);
     job_lastStatus := or_null (String.eqb "") (cj_state_lastStatus job) |}.

(** The loader of [getCronJobs]; [cron_list] is the parsed output of
    [openclaw cron list --json], its [jobs] defaulted to none. *)
Definition getCronJobs_loader (openclawPath : option string)
    (cron_list : result (list CronJobJson)) : list CronJob :=
  if Boolean_path openclawPath then
    match cron_list with
    | Returns jobs => normalize_job <$> jobs
    | Throws _ => []
    end
  else [].

(** *** [getConnections] *)

Record Connection := {
  c_process : string;
  c_host : string;
  c_port : Z
}.

(** The host tests of line 440. *)
Definition is_local (host : string) : bool :=
  includes "localhost" host || includes "127.0.0.1" host || String.eqb host "::1".

(** The loop over the lines; [connections] is the array filled so far. *)
Fixpoint scan (lines : list string) (connections : list Connection) : list Connection :=
  match lines with
  | [] => connections
  | line :: rest =>
      if negb (includes "ESTABLISHED" line) then scan rest connections
      else
        let parts := split_spaces false line in
        let process := default "" (head parts) in
        let connection := default "" (List.find (λ token, includes "->" token) parts) in
        match match_arrow connection with
        | None => scan rest connections
        | Some (host, port) =>
            if is_local host then scan rest connections
            else
              let connections :=
                connections ++ [{| c_process := process; c_host := host;
                                   c_port := parseInt port |}] in
              if bool_decide (20 ≤ length connections)%nat then connections
              else scan rest connections
        end
  end.

(** The key of the de-duplicating [Map]. *)
Definition connection_key (c : Connection) : string :=
  String.append (c_process c) (String.append "-" (c_host c)).

(** [map.set(key, value)]: a key keeps the place of its first insertion. *)
Fixpoint Map_set (key : string) (value : Connection) (m : list (string * Connection))
    : list (string * Connection) :=
  match m with
  | [] => [(key, value)]
  | (k, v) :: m' =>
      if String.eqb k key then (key, value) :: m' else (k, v) :: Map_set key value m'
  end.

(** [[...new Map(connections.map(c => [key, c])).values()]] *)
Definition unique (connections : list Connection) : list Connection :=
  (foldl (λ m c, Map_set (connection_key c) c m) [] connections).*2.

(** The loader of [getConnections]; [lsof] is what [lsof -i -P] printed. *)
Definition getConnections_loader (lsof : result string) : list Connection :=
  match lsof with
  | Returns result =>
      let lines :=
        filter (λ line, line ≠ "") (split_char "010"%char (trim result)) in
      take 10 (unique (scan lines []))
  | Throws _ => []
  end.

(** Where a reported connection comes from: an [ESTABLISHED] line of the
    output, whose first field is the process and one of whose fields the
    pattern matched, with a peer that is not local. *)
Definition from_line (lines : list string) (c : Connection) : Prop :=
  ∃ line token port,
    line ∈ lines
    ∧ includes "ESTABLISHED" line = true
    ∧ c_process c = default "" (head (split_spaces false line))
    ∧ token ∈ split_spaces false line
    ∧ match_arrow token = Some (c_host c, port)
    ∧ c_port c = parseInt port
    ∧ is_local (c_host c) = false.

(** The element of [currentProcs] made of a process of the agent's list. *)
Definition proc_of (p : RawProc) : Proc :=
  {| p_name := or_str (rp_name p) "unknown";
     p_cpu := or_float (rp_cpu_percent p) 0;
     p_ram_mb := (or_float (rp_memory_info_rss p) 0 / (1024 * 1024))%float |}.

(** *** The [ok] property of the other health checks *)

Definition glances_ok (c : GlancesCheck) : bool :=
  match c with
  | GlancesOk _ => true
  | GlancesFailed _ _ => false
  end.

Definition openclaw_ok (c : OpenclawCheck) : bool :=
  match c with
  | OpenclawNotInstalled _ | OpenclawOk _ => true
  | OpenclawFailed _ _ => false
  end.

(** *** The handlers as the event loop runs them *)

(** The cache key under which a loader is used. *)
Definition key_of (l : Loader) : string :=
  match l with
  | Tokens24hLoader => "openclaw-24h-tokens"
  | OpenClawStatsLoader => "openclaw-stats"
  | HistoryLoader normalizedRange => String.append "history:" normalizedRange
  | HealthLoader => "health"
  | ProcessInsightsLoader => "process-insights"
  end.

(** A handler is called, or the loader of a suspended load finishes in
    some world. *)
Inductive hevent :=
| CallTokens24h (now : Z)
| CallOpenClawStats (now : Z)
| CallHistory (range : string) (now : Z)
| CallHealth (now : Z)
| CallInsights (now : Z)
| Settle (p : nat) (w : World).

(** The cache together with [lastKnownOpenClaw]. *)
Definition hstep (hs : Cache.state Payload Loader JsError * option OpenClawStats)
    (ev : hevent) : Cache.state Payload Loader JsError * option OpenClawStats :=
  match ev with
  | CallTokens24h now => ((get24HourTokens now hs.1).2, hs.2)
  | CallOpenClawStats now => ((getOpenClawStats now hs.1).2, hs.2)
  | CallHistory range now => ((getHistory range now hs.1).2, hs.2)
  | CallHealth now => ((getHealthStatus now hs.1).2, hs.2)
  | CallInsights now => ((getProcessInsights now hs.1).2, hs.2)
  | Settle p w => default hs (settle p w hs.2 hs.1)
  end.

(** The loads in flight carry the key of their loader, and what is cached
    under a key, or remembered by a load, was returned by the loader of
    that key. *)
Definition own_payloads (s : Cache.state Payload Loader JsError) : Prop :=
  (∀ p c, Cache.loads s !! p = Some c →
     Cache.l_key c = key_of (Cache.l_loader c)
     ∧ Cache.l_allowStale c = false
     ∧ ∀ v, Cache.ex_value (Cache.l_existing c) = Some v →
            ∃ w lk, (run_loader (Cache.l_loader c) w lk).1 = Returns v)
  ∧ (∀ l e v, Cache.cacheStore s !! key_of l = Some e → Cache.value e = Some v →
       ∃ w lk, (run_loader l w lk).1 = Returns v)
  ∧ (∀ k e v, Cache.cacheStore s !! k = Some e → Cache.value e = Some v →
       ∃ l, k = key_of l).

Definition hrun (evs : list hevent) : Cache.state Payload Loader JsError * option OpenClawStats :=
  foldl hstep (Cache.initial, None) evs.

End MoreHandlers.

(** ** More of the cache: which key an event concerns *)

Module CacheEvents.
Import Cache.
Section Events.
Context {V L E : Type}.

Definition event_key (s : state V L E) (ev : event V L E) : option string :=
  match ev with
  | Call key _ _ _ _ => Some key
  | Resolve p _ _ => l_key <$> loads s !! p
  | Reject p _ => l_key <$> loads s !! p
  end.

(** Every load started so far is in flight or settled, not both, and
    each start logged one loader invocation. *)
Record accounted (s : state V L E) : Prop := {
  calls_counted : length (loaderCalls s) = nextLoad s;
  loads_known : ∀ p,
    (p < nextLoad s)%nat ↔ is_Some (loads s !! p) ∨ is_Some (settledLoads s !! p);
  loads_once : ∀ p, loads s !! p = None ∨ settledLoads s !! p = None
}.

(** The entry of a key with a load in flight still holds what the load
    saw when it started. *)
Definition snapshots_agree (s : state V L E) : Prop :=
  ∀ p c, loads s !! p = Some c →
    ∃ e, cacheStore s !! l_key c = Some e
         ∧ value e = ex_value (l_existing c)
         ∧ timestamp e = ex_timestamp (l_existing c).

End Events.
End CacheEvents.

(** ** More of the earlier server *)

Module LegacyServer.
Import Js Handlers.

(** [findOpenclawPath]: the first candidate that is there and runs, else
    the bare command. *)
Fixpoint findOpenclawPath (existsSync runsVersion : string → bool)
    (possiblePaths : list string) : string :=
  match possiblePaths with
  | [] => "openclaw"
  | p :: rest =>
      if (String.eqb p "openclaw" || existsSync p) && runsVersion p then p
      else findOpenclawPath existsSync runsVersion rest
  end.

Definition possiblePaths (nvmPath : string) : list string :=
  [nvmPath; "/usr/local/bin/openclaw"; "/opt/homebrew/bin/openclaw"; "openclaw"].

(** What the handlers of the earlier server return, as JSON text; they
    catch their own errors. *)
Record Answers := {
  an_openclaw : string;
  an_tokens24h : string;
  an_history : string → string;
  an_cron : string;
  an_tokens : string;
  an_connections : string;
  an_quote : string;
  an_processes : string
}.

Inductive Body :=
| NoBody
| Json (text : string)
| NotFound.

Record Response := {
  statusCode : Z;
  headers : list (string * string);
  body : Body
}.

Definition headers_set : list (string * string) :=
  [("Access-Control-Allow-Origin", "*");
   ("Access-Control-Allow-Methods", "GET, OPTIONS");
   ("Content-Type", "application/json")].

(** The listener of the earlier server. *)
Definition server (method pathname : string) (range : option string) (a : Answers)
    : Response :=
  if String.eqb method "OPTIONS" then
    {| statusCode := 200; headers := headers_set; body := NoBody |}
  else
    let path_is p1 p2 := String.eqb pathname p1 || String.eqb pathname p2 in
    let ok text := {| statusCode := 200; headers := headers_set; body := Json text |} in
    if path_is "/openclaw" "/api/openclaw" then ok (an_openclaw a)
    else if path_is "/openclaw/history" "/api/openclaw/history" then ok (an_tokens24h a)
    else if path_is "/history" "/api/history" then ok (an_history a (or_str range "1h"))
    else if path_is "/cron" "/api/cron" then ok (an_cron a)
    else if path_is "/tokens" "/api/tokens" then ok (an_tokens a)
    else if path_is "/connections" "/api/connections" then ok (an_connections a)
    else if path_is "/quote" "/api/quote" then ok (an_quote a)
    else if path_is "/processes" "/api/processes" then ok (an_processes a)
    else {| statusCode := 404; headers := headers_set; body := NotFound |}.

End LegacyServer.

(** * Properties *)

(** ** The cache *)

Module CacheFacts.
Import Cache Samples.
Section Facts.
Context {V L E : Type}.
Implicit Types (s : state V L E) (e : entry V) (c : load V L) (ev : event V L E).

(** A call is a fresh hit, joins the load in flight, or starts one. *)
Lemma withCache_cases key ttlMs loader stale now s :
  (∃ v, fresh_value (cacheStore s !! key) now ttlMs = Some v ∧
        withCache key ttlMs loader stale now s = (Now (Some v), s))
  ∨ (fresh_value (cacheStore s !! key) now ttlMs = None ∧
     ∃ p, (cacheStore s !! key) ≫= inFlight = Some p ∧
          withCache key ttlMs loader stale now s = (Pending p, s))
  ∨ (fresh_value (cacheStore s !! key) now ttlMs = None ∧
     (cacheStore s !! key) ≫= inFlight = None ∧
     withCache key ttlMs loader stale now s =
       (Pending (nextLoad s),
        {| cacheStore :=
             <[key := Entry (ex_value (cacheStore s !! key))
                            (ex_timestamp (cacheStore s !! key)) (Some (nextLoad s))]>
               (cacheStore s);
           loads := <[nextLoad s := Load key (cacheStore s !! key) stale loader]> (loads s);
           settledLoads := settledLoads s;
           nextLoad := S (nextLoad s);
           loaderCalls := loaderCalls s ++ [(key, loader)] |})).
Proof.
  unfold withCache.
  destruct (fresh_value (cacheStore s !! key) now ttlMs) as [v|] eqn:Hf.
  - left. eauto.
  - destruct ((cacheStore s !! key) ≫= inFlight) as [p|] eqn:Hp.
    + right; left. eauto.
    + right; right. auto.
Qed.

(** A stale entry stays stale for a later call that asks for no longer a
    time to live. *)
Lemma fresh_value_later (ex : option (entry V)) now0 ttl0 now1 ttl1 :
  fresh_value ex now0 ttl0 = None → now0 ≤ now1 → ttl1 ≤ ttl0 →
  fresh_value ex now1 ttl1 = None.
Proof.
  unfold fresh_value. destruct ex as [e|]; [|done].
  destruct (value e); [|done].
  intros H ? ?. repeat case_bool_decide; try done; lia.
Qed.

(** The entry written when a load starts is as stale as the one it replaces. *)
Lemma fresh_value_in_flight (ex : option (entry V)) p now ttlMs :
  fresh_value (Some (Entry (ex_value ex) (ex_timestamp ex) p)) now ttlMs
  = fresh_value ex now ttlMs.
Proof. destruct ex as [e|]; reflexivity. Qed.

Lemma consistent_initial : consistent (@initial V L E).
Proof. split; simpl; intros *; rewrite lookup_empty; done. Qed.

Lemma in_flight_unique s p q c c' :
  consistent s → loads s !! p = Some c → loads s !! q = Some c' →
  l_key c = l_key c' → p = q.
Proof.
  intros Hs Hp Hq Hk.
  destruct (load_store s Hs p c Hp) as (e & He & Hi).
  destruct (load_store s Hs q c' Hq) as (e' & He' & Hi').
  rewrite Hk in He. congruence.
Qed.

Lemma consistent_withCache key ttlMs loader stale now s :
  consistent s → consistent (withCache key ttlMs loader stale now s).2.
Proof.
  intros Hs.
  destruct (withCache_cases key ttlMs loader stale now s)
    as [(v & _ & ->) | [(_ & p & _ & ->) | (_ & Hnone & ->)]]; [done | done |].
  simpl. split; simpl.
  - intros k e p. destruct (decide (key = k)) as [->|Hne].
    + rewrite lookup_insert_eq. intros [= <-] [= <-]. simpl.
      eexists. rewrite lookup_insert_eq. done.
    + rewrite lookup_insert_ne by done. intros He Hi.
      destruct (store_load s Hs k e p He Hi) as (c & Hc & Hk).
      exists c. split; [|done]. rewrite lookup_insert_ne; [done|].
      pose proof (load_bound s Hs p c Hc). lia.
  - intros p c. destruct (decide (nextLoad s = p)) as [<-|Hne].
    + rewrite lookup_insert_eq. intros [= <-]. simpl.
      rewrite lookup_insert_eq. eauto.
    + rewrite lookup_insert_ne by done. intros Hc.
      destruct (load_store s Hs p c Hc) as (e & He & Hi).
      exists e. split; [|done]. rewrite lookup_insert_ne; [done|].
      intros ->. rewrite He in Hnone. simpl in Hnone. congruence.
  - intros p c. destruct (decide (nextLoad s = p)) as [<-|Hne].
    + lia.
    + rewrite lookup_insert_ne by done. intros Hc.
      pose proof (load_bound s Hs p c Hc). lia.
Qed.

(** Settling load [p] rewrites the entry of its key and forgets [p]. *)
Lemma consistent_settle s p c e' (settled' : gmap nat (settled V E)) :
  consistent s → loads s !! p = Some c → inFlight e' = None →
  consistent {| cacheStore := <[l_key c := e']> (cacheStore s);
                loads := delete p (loads s);
                settledLoads := settled';
                nextLoad := nextLoad s;
                loaderCalls := loaderCalls s |}.
Proof.
  intros Hs Hc He'. split; simpl.
  - intros k e q. destruct (decide (l_key c = k)) as [<-|Hne].
    + rewrite lookup_insert_eq. intros [= <-]. congruence.
    + rewrite lookup_insert_ne by done. intros He Hi.
      destruct (store_load s Hs k e q He Hi) as (c' & Hc' & Hk).
      exists c'. split; [|done]. rewrite lookup_delete_ne; [done|].
      intros ->. congruence.
  - intros q c'. destruct (decide (p = q)) as [<-|Hne].
    + rewrite lookup_delete_eq. done.
    + rewrite lookup_delete_ne by done. intros Hc'.
      destruct (load_store s Hs q c' Hc') as (e & He & Hi).
      exists e. split; [|done]. rewrite lookup_insert_ne; [done|].
      intros Hk. apply Hne. by apply (in_flight_unique s p q c c').
  - intros q c'. destruct (decide (p = q)) as [<-|Hne].
    + rewrite lookup_delete_eq. done.
    + rewrite lookup_delete_ne by done. apply (load_bound s Hs).
Qed.

Lemma consistent_step s ev : consistent s → consistent (step s ev).
Proof.
  intros Hs. destruct ev as [key ttlMs loader stale now | p v now | p e]; simpl.
  - by apply consistent_withCache.
  - unfold resolveLoad. destruct (loads s !! p) as [c|] eqn:Hc; simpl; [|done].
    by apply consistent_settle.
  - unfold rejectLoad. destruct (loads s !! p) as [c|] eqn:Hc; simpl; [|done].
    destruct (stale_value c); by apply consistent_settle.
Qed.

Lemma consistent_run evs s : consistent s → consistent (run evs s).
Proof.
  revert s. induction evs as [|ev evs IH]; intros s Hs; [done|].
  apply IH. by apply consistent_step.
Qed.

Lemma calls_for_app key (l1 l2 : list (string * L)) :
  calls_for key (l1 ++ l2) = calls_for key l1 ++ calls_for key l2.
Proof. apply filter_app. Qed.

(** While load [p] is in flight for [k], an event that does not settle [p]
    leaves the entry of [k] alone and invokes no loader for [k]. *)
Lemma step_keeps_in_flight s ev k e p :
  consistent s → cacheStore s !! k = Some e → inFlight e = Some p →
  settles p ev = false →
  cacheStore (step s ev) !! k = Some e
  ∧ calls_for k (loaderCalls (step s ev)) = calls_for k (loaderCalls s)
  ∧ loads (step s ev) !! p = loads s !! p.
Proof.
  intros Hs He Hi Hev.
  destruct (store_load s Hs k e p He Hi) as (cp & Hcp & _).
  pose proof (load_bound s Hs p cp Hcp) as Hbound.
  assert (Hsettle : ∀ q c e',
    loads s !! q = Some c → q ≠ p →
    <[l_key c := e']> (cacheStore s) !! k = Some e).
  { intros q c e' Hc Hq. rewrite lookup_insert_ne; [done|].
    intros Hk. destruct (load_store s Hs q c Hc) as (e0 & He0 & Hi0).
    rewrite Hk in He0. congruence. }
  destruct ev as [key ttlMs loader stale now | q v now | q err]; simpl in *.
  - destruct (withCache_cases key ttlMs loader stale now s)
      as [(v & _ & ->) | [(_ & q & _ & ->) | (_ & Hnone & ->)]]; [done | done |].
    simpl. assert (key ≠ k) as Hne.
    { intros ->. rewrite He in Hnone. simpl in Hnone. congruence. }
    rewrite !lookup_insert_ne by (done || lia). split; [done|]. split; [|done].
    rewrite calls_for_app. unfold calls_for at 2.
    rewrite filter_cons_False by done. by rewrite filter_nil, app_nil_r.
  - case_bool_decide; [done|].
    unfold resolveLoad. destruct (loads s !! q) as [c|] eqn:Hc; simpl; [|done].
    rewrite lookup_delete_ne by done. split; [|done]. by eapply (Hsettle q c).
  - case_bool_decide; [done|].
    unfold rejectLoad. destruct (loads s !! q) as [c|] eqn:Hc; simpl; [|done].
    destruct (stale_value c); simpl; rewrite lookup_delete_ne by done;
      (split; [|done]); by eapply (Hsettle q c).
Qed.

Lemma run_keeps_in_flight evs s k e p :
  consistent s → cacheStore s !! k = Some e → inFlight e = Some p →
  forallb (λ ev, negb (settles p ev)) evs = true →
  cacheStore (run evs s) !! k = Some e
  ∧ calls_for k (loaderCalls (run evs s)) = calls_for k (loaderCalls s)
  ∧ loads (run evs s) !! p = loads s !! p.
Proof.
  revert s. induction evs as [|ev evs IH]; intros s Hs He Hi Hevs; [done|].
  simpl in Hevs. apply andb_true_iff in Hevs as [Hev Hevs].
  apply negb_true_iff in Hev.
  destruct (step_keeps_in_flight s ev k e p Hs He Hi Hev) as (He' & Hlog & Hload).
  simpl. rewrite <- Hlog, <- Hload.
  apply IH; [by apply consistent_step | done | done | done].
Qed.

(** The entry a call leaves behind when it hands back a pending load. *)
Lemma withCache_pending key ttlMs loader stale now s p s1 :
  consistent s →
  withCache key ttlMs loader stale now s = (Pending p, s1) →
  consistent s1
  ∧ (∃ e, cacheStore s1 !! key = Some e ∧ inFlight e = Some p
          ∧ value e = ex_value (cacheStore s !! key)
          ∧ timestamp e = ex_timestamp (cacheStore s !! key)
          ∧ fresh_value (Some e) now ttlMs = None)
  ∧ ((s1 = s ∧ (cacheStore s !! key) ≫= inFlight = Some p)
     ∨ ((cacheStore s !! key) ≫= inFlight = None
        ∧ p = nextLoad s
        ∧ loads s1 !! p = Some (Load key (cacheStore s !! key) stale loader)
        ∧ loaderCalls s1 = loaderCalls s ++ [(key, loader)])).
Proof.
  intros Hs Hcall.
  split. { replace s1 with (withCache key ttlMs loader stale now s).2 by (by rewrite Hcall).
           by apply consistent_withCache. }
  destruct (withCache_cases key ttlMs loader stale now s)
    as [(v & _ & Heq) | [(Hf & q & Hq & Heq) | (Hf & Hnone & Heq)]];
    rewrite Heq in Hcall; [done | |].
  - injection Hcall as <- <-. split; [|by left].
    destruct (cacheStore s !! key) as [e|] eqn:He; [|done].
    exists e. simpl in *. done.
  - injection Hcall as <- <-. split.
    + exists (Entry (ex_value (cacheStore s !! key))
                      (ex_timestamp (cacheStore s !! key)) (Some (nextLoad s))).
      rewrite fresh_value_in_flight. cbn [cacheStore].
      rewrite lookup_insert_eq. done.
    + right. cbn [loads loaderCalls]. rewrite lookup_insert_eq. done.
Qed.

Lemma withCache_pending_stale key ttlMs loader stale now s p s1 :
  withCache key ttlMs loader stale now s = (Pending p, s1) →
  fresh_value (cacheStore s !! key) now ttlMs = None.
Proof.
  intros Hcall.
  destruct (withCache_cases key ttlMs loader stale now s)
    as [(v & _ & Heq) | [(Hf & _) | (Hf & _)]]; [|done|done].
  rewrite Heq in Hcall. done.
Qed.

(** An entry is judged fresh by its value and timestamp alone. *)
Lemma fresh_value_same (ex : option (entry V)) e now ttlMs :
  value e = ex_value ex → timestamp e = ex_timestamp ex →
  fresh_value (Some e) now ttlMs = fresh_value ex now ttlMs.
Proof.
  destruct e as [v t i]. simpl. intros -> ->. destruct ex as [e0|]; reflexivity.
Qed.

(** C1 (as the code has it). While a load for a key is in flight,
    whatever other calls and settlements of other loads overlap: a
    concurrent call of [withCache] on that key is handed the value cached
    before the load if that value is still fresh by the call's own time
    to live and clock, and the same pending load otherwise; it is the
    pending load for every call made no earlier than the one that
    obtained the load with a time to live no longer than that one's.  In
    either case the call leaves the state alone, so the loader of the key
    is not invoked again; the call that obtained the load either joined
    it or invoked the loader exactly once; and at any instant no two
    loads in flight share a key. *)
Theorem withCache_coalesces_in_flight
    (evs0 : list (event V L E)) key ttlMs loader stale now0 p (s1 : state V L E)
    (evs : list (event V L E)) :
  withCache key ttlMs loader stale now0 (run evs0 initial) = (Pending p, s1) →
  forallb (λ ev, negb (settles p ev)) evs = true →
  (∀ ttlMs' loader' stale' now1,
     withCache key ttlMs' loader' stale' now1 (run evs s1)
     = (match fresh_value (cacheStore (run evs0 initial) !! key) now1 ttlMs' with
        | Some v => Now (Some v)
        | None => Pending p
        end,
        run evs s1))
  ∧ (∀ ttlMs' loader' stale' now1,
       now0 ≤ now1 → ttlMs' ≤ ttlMs →
       withCache key ttlMs' loader' stale' now1 (run evs s1) = (Pending p, run evs s1))
  ∧ calls_for key (loaderCalls (run evs s1)) = calls_for key (loaderCalls s1)
  ∧ (s1 = run evs0 initial
     ∨ loaderCalls s1 = loaderCalls (run evs0 initial) ++ [(key, loader)])
  ∧ (∀ q q' c c',
       loads (run evs s1) !! q = Some c → loads (run evs s1) !! q' = Some c' →
       l_key c = l_key c' → q = q')
  ∧ (∀ q c, loads (run evs s1) !! q = Some c → l_key c = key → q = p).
Proof.
  intros Hcall Hevs.
  assert (Hs0 : consistent (run evs0 (@initial V L E)))
    by apply consistent_run, consistent_initial.
  destruct (withCache_pending _ _ _ _ _ _ _ _ Hs0 Hcall)
    as (Hs1 & (e & He & Hi & Hv & Hts & Hstale) & Hhow).
  destruct (run_keeps_in_flight evs s1 key e p Hs1 He Hi Hevs) as (He2 & Hlog & _).
  assert (Hs2 : consistent (run evs s1)) by by apply consistent_run.
  assert (Hanswer : ∀ ttlMs' loader' stale' now1,
     withCache key ttlMs' loader' stale' now1 (run evs s1)
     = (match fresh_value (cacheStore (run evs0 initial) !! key) now1 ttlMs' with
        | Some v => Now (Some v)
        | None => Pending p
        end,
        run evs s1)).
  { intros ttlMs' loader' stale' now1. unfold withCache. rewrite He2.
    rewrite (fresh_value_same _ e now1 ttlMs' Hv Hts).
    destruct (fresh_value _ now1 ttlMs'); [done|]. simpl. by rewrite Hi. }
  split; [exact Hanswer|]. split; [|split; [|split; [|split]]].
  - intros ttlMs' loader' stale' now1 Hnow Httl. rewrite Hanswer.
    rewrite (fresh_value_same _ e now0 ttlMs Hv Hts) in Hstale.
    by rewrite (fresh_value_later _ _ _ _ _ Hstale Hnow Httl).
  - done.
  - destruct Hhow as [[-> _] | (_ & _ & _ & ->)]; auto.
  - intros q q' c c'. by apply in_flight_unique.
  - intros q c Hc Hk.
    destruct (load_store _ Hs2 q c Hc) as (e' & He' & Hi').
    rewrite Hk in He'. congruence.
Qed.

(** C2 (as the code has it). When the loader of a load started by a miss
    fails, whatever overlapped meanwhile: the load is fulfilled with the
    previous value if [allowStaleOnError] is set and there is one (the
    error is suppressed), and is rejected with the error otherwise; in
    both cases the entry keeps the value and the timestamp it had before
    the call, so its freshness window is not extended, and a later call
    with no longer a time to live is a miss that invokes its loader again. *)
Theorem rejectLoad_keeps_timestamp
    (evs0 : list (event V L E)) key ttlMs loader stale now0 p (s1 : state V L E)
    (evs : list (event V L E)) (err : E) :
  let s0 := run evs0 initial in
  let existing := cacheStore s0 !! key in
  withCache key ttlMs loader stale now0 s0 = (Pending p, s1) →
  existing ≫= inFlight = None →
  forallb (λ ev, negb (settles p ev)) evs = true →
  ∃ s2,
    rejectLoad p err (run evs s1) = Some s2
    ∧ settledLoads s2 !! p =
        Some (match (if stale then ex_value existing else None) with
              | Some v => Fulfilled (Some v)
              | None => Rejected err
              end)
    ∧ cacheStore s2 !! key
      = Some (Entry (ex_value existing) (ex_timestamp existing) None)
    ∧ ∀ ttlMs' loader' stale' now1,
        now0 ≤ now1 → ttlMs' ≤ ttlMs →
        ∃ s3, withCache key ttlMs' loader' stale' now1 s2 = (Pending (nextLoad s2), s3)
              ∧ loaderCalls s3 = loaderCalls s2 ++ [(key, loader')].
Proof.
  intros s0 existing Hcall Hmiss Hevs.
  assert (Hs0 : consistent s0) by apply consistent_run, consistent_initial.
  destruct (withCache_pending _ _ _ _ _ _ _ _ Hs0 Hcall)
    as (Hs1 & (e & He & Hi & Hv & Hts & Hstale) & Hhow).
  destruct Hhow as [[_ Hjoin] | (_ & Hp & Hload & _)].
  { fold existing in Hjoin. congruence. }
  destruct (run_keeps_in_flight evs s1 key e p Hs1 He Hi Hevs) as (He2 & _ & Hload2).
  assert (Hs2 : consistent (run evs s1)) by by apply consistent_run.
  rewrite Hload in Hload2.
  unfold rejectLoad. rewrite Hload2. simpl. unfold stale_value. simpl.
  eexists. split; [reflexivity|].
  assert (Hretry : ∀ (st : gmap nat (settled V E)) ttlMs' loader' stale' now1,
    now0 ≤ now1 → ttlMs' ≤ ttlMs →
    let s2 := {| cacheStore :=
                   <[key := Entry (ex_value existing) (ex_timestamp existing) None]>
                     (cacheStore (run evs s1));
                 loads := delete p (loads (run evs s1));
                 settledLoads := st;
                 nextLoad := nextLoad (run evs s1);
                 loaderCalls := loaderCalls (run evs s1) |} in
    ∃ s3, withCache key ttlMs' loader' stale' now1 s2 = (Pending (nextLoad s2), s3)
          ∧ loaderCalls s3 = loaderCalls s2 ++ [(key, loader')]).
  { intros st ttlMs' loader' stale' now1 Hnow Httl s2.
    destruct (withCache_cases key ttlMs' loader' stale' now1 s2)
      as [(v & Hf & _) | [(_ & q & Hq & _) | (_ & _ & ->)]].
    - exfalso. subst s2. simpl in Hf. rewrite lookup_insert_eq in Hf.
      rewrite fresh_value_in_flight in Hf.
      pose proof (withCache_pending_stale _ _ _ _ _ _ _ _ Hcall) as Hex.
      fold existing in Hex.
      rewrite (fresh_value_later _ _ _ _ _ Hex Hnow Httl) in Hf. done.
    - exfalso. subst s2. simpl in Hq. rewrite lookup_insert_eq in Hq. done.
    - eexists. split; reflexivity. }
  revert Hretry. subst existing. cbn zeta.
  destruct stale; [destruct (ex_value (cacheStore s0 !! key)) as [v|]|];
    intros Hretry; cbn [settledLoads cacheStore]; rewrite !lookup_insert_eq;
    (split; [done|]); (split; [done|]); apply Hretry.
Qed.


End Facts.

Lemma withCache_coalesces_in_flight_witness :
  let s1 := (withCache "health" 5000 "health-loader" true 6000 (run demo_first_load initial)).2 in
  withCache "health" 5000 "health-loader" true 6010 (run demo_overlap s1)
  = (Pending 1%nat, run demo_overlap s1)
  ∧ calls_for "health" (loaderCalls (run demo_overlap s1))
    = [("health", "health-loader"); ("health", "health-loader")].
Proof.
  cbv zeta.
  destruct (withCache_coalesces_in_flight demo_first_load "health" 5000 "health-loader" true
              6000 1%nat
              (withCache "health" 5000 "health-loader" true 6000
                 (run demo_first_load initial)).2
              demo_overlap)
    as (_ & Hjoin & Hlog & _); [by vm_compute | by vm_compute |].
  split; [apply Hjoin; lia|]. rewrite Hlog. by vm_compute.
Defined.

(** C1, the claim as written, fails: with load 1 of [health] in flight
    (started at 6000 under a time to live of 5000, the value 7 being
    6000 - 40 old), a call on [health] with a time to live of 10000, or one
    whose clock reads 5000, is not handed the pending load but the value
    7 at once; the same call as the first is handed the load. *)
Lemma fresh_hit_while_load_in_flight :
  let s :=
    run [Call "health" 5000 "health-loader" true 0; Resolve 0 (Some 7) 40;
         Call "health" 5000 "health-loader" true 6000]
      (@initial Z string string) in
  loads s !! 1%nat
  = Some (Load "health" (Some (Entry (Some 7) 40 None)) true "health-loader")
  ∧ settledLoads s !! 1%nat = None
  ∧ withCache "health" 5000 "health-loader" true 6001 s = (Pending 1, s)
  ∧ withCache "health" 10000 "health-loader" true 6001 s = (Now (Some 7), s)
  ∧ withCache "health" 5000 "health-loader" true 5000 s = (Now (Some 7), s)
  ∧ (withCache "health" 10000 "health-loader" true 6001 s).1 ≠ Pending 1.
Proof. vm_compute. repeat split; try reflexivity. discriminate. Qed.

Lemma rejectLoad_keeps_timestamp_witness :
  ∃ s2,
    rejectLoad 1%nat "glances down"
      (run demo_overlap
         (withCache "health" 5000 "health-loader" true 6000 (run demo_first_load initial)).2)
    = Some s2
    ∧ settledLoads s2 !! 1%nat = Some (Fulfilled (Some 7))
    ∧ cacheStore s2 !! "health" = Some (Entry (Some 7) 40 None).
Proof.
  destruct (rejectLoad_keeps_timestamp demo_first_load "health" 5000 "health-loader" true
              6000 1%nat
              (withCache "health" 5000 "health-loader" true 6000
                 (run demo_first_load initial)).2
              demo_overlap "glances down")
    as (s2 & Hrej & Hset & Hentry & _); [by vm_compute | by vm_compute | by vm_compute |].
  exists s2. split; [exact Hrej|]. split; [exact Hset | exact Hentry].
Defined.

(** C2, the claim as written, fails: after a failed load re-served the
    previous value under [allowStaleOnError], the entry still carries the
    timestamp of the last successful load, and a call made at the very
    instant of the failed one, with the same time to live, is not a fresh
    hit: it starts another load. *)
Lemma stale_reserve_does_not_extend_freshness :
  let s :=
    run [Call "health" 5000 "health-loader" true 0; Resolve 0 (Some 7) 40;
         Call "health" 5000 "health-loader" true 6000; Reject 1 "glances down"]
      (@initial Z string string) in
  settledLoads s !! 1%nat = Some (Fulfilled (Some 7))
  ∧ cacheStore s !! "health" = Some (Entry (Some 7) 40 None)
  ∧ (withCache "health" 5000 "health-loader" true 6000 s).1 = Pending 2
  ∧ (withCache "health" 5000 "health-loader" true 6000 s).1 ≠ Now (Some 7)
  ∧ loaderCalls (withCache "health" 5000 "health-loader" true 6000 s).2
    = [("health", "health-loader"); ("health", "health-loader"); ("health", "health-loader")].
Proof. vm_compute. repeat split; try reflexivity. discriminate. Qed.

End CacheFacts.

(** ** The handlers *)

Module HandlerFacts.
Import Js Handlers Samples.

(** *** Locating the CLI *)

Lemma probe_elem existsSync runsVersion candidates p :
  probe existsSync runsVersion candidates = Some p → p ∈ candidates.
Proof.
  induction candidates as [|c rest IH]; simpl; [done|].
  destruct (negb (String.eqb c "openclaw") && negb (existsSync c)).
  - intros H. right. by apply IH.
  - destruct (runsVersion c).
    + intros [= ->]. left.
    + intros H. right. by apply IH.
Qed.

Lemma dedupe_elem seen l x : x ∈ dedupe seen l → x ∈ l.
Proof.
  revert seen. induction l as [|y l IH]; intros seen; simpl; [done|].
  case_bool_decide as Hseen.
  - intros Hx. right. by eapply IH.
  - intros [->|Hx]%elem_of_cons; [left | right; by eapply IH].
Qed.

(** No candidate is the empty string: [filter(Boolean)] dropped those. *)
Lemma getOpenclawCandidates_truthy OPENCLAW_PATH nvmPath p :
  p ∈ getOpenclawCandidates OPENCLAW_PATH nvmPath → p ≠ "".
Proof.
  intros Hp%dedupe_elem.
  apply list_elem_of_omap in Hp as (o & Ho & Hp).
  destruct o as [s|]; simpl in Hp; [|done].
  destruct s; [done|]. by injection Hp as <-.
Qed.

(** *** [get24HourTokens] *)

Lemma List_last_last (rows : list StatsRow) first :
  last (first :: rows) = Some (List.last (first :: rows) first).
Proof.
  revert first. induction rows as [|r rows IH]; intros first; [done|].
  change (last (first :: r :: rows)) with (last (r :: rows)). rewrite (IH r).
  f_equal. simpl. destruct rows; [done|]. clear IH.
  revert r s. induction rows as [|x rows IH]; intros r s; [done|].
  simpl in *. apply IH.
Qed.

(** C5. Whatever rows the store returns for the last 24 hours,
    [tokens24h] is the last row's [tokens] minus the first row's, clamped
    below at 0, hence never negative even when the counter went down;
    [samples] is the number of rows; no rows give exactly
    [{ tokens24h: 0, samples: 0 }]; and the loader returns this for the
    rows of its query (none when the query fails), never an error. *)
Theorem get24HourTokens_delta_clamped (rows : list StatsRow) :
  0 ≤ t_tokens24h (tokens24h_of_rows rows)
  ∧ t_samples (tokens24h_of_rows rows) = Z.of_nat (length rows)
  ∧ (tokens24h_of_rows [] = {| t_tokens24h := 0; t_samples := 0; t_history := None |})
  ∧ (∀ first last_row,
       head rows = Some first → last rows = Some last_row →
       tokens24h_of_rows rows
       = {| t_tokens24h := Z.max 0 (sr_tokens last_row - sr_tokens first);
            t_samples := Z.of_nat (length rows);
            t_history := Some rows |})
  ∧ (∀ w, get24HourTokens_loader w
          = Returns (tokens24h_of_rows
                       match sqlite3_openclaw_stats_since w (Date_now w / 1000 - 86400) with
                       | Returns answered => answered
                       | Throws _ => []
                       end)).
Proof.
  repeat split.
  - destruct rows; simpl; lia.
  - destruct rows; simpl; lia.
  - intros first last_row Hhead Hlast. destruct rows as [|r rows]; [done|].
    injection Hhead as ->. rewrite List_last_last in Hlast. injection Hlast as <-.
    reflexivity.
  - intros w. unfold get24HourTokens_loader.
    destruct (sqlite3_openclaw_stats_since w _); reflexivity.
Qed.

(** A counter reset between two samples: the delta is 0, not negative. *)
Example get24HourTokens_counter_reset :
  tokens24h_of_rows
    [{| sr_timestamp := 100; sr_sessions := 2; sr_tokens := 5000 |};
     {| sr_timestamp := 160; sr_sessions := 1; sr_tokens := 120 |}]
  = {| t_tokens24h := 0; t_samples := 2;
       t_history := Some [{| sr_timestamp := 100; sr_sessions := 2; sr_tokens := 5000 |};
                          {| sr_timestamp := 160; sr_sessions := 1; sr_tokens := 120 |}] |}.
Proof. reflexivity. Qed.

(** *** [getOpenClawStats] *)

(** C3. When the live call of the CLI fails, the loader answers, and
    leaves [lastKnownOpenClaw] as it was: with the last snapshot, marked
    down and cached, if there is one; else with the latest persisted row
    of [openclaw_stats], marked down and cached; else, the store having no
    row, with status unknown and [installed] telling whether the probe of
    the executable path found one. *)
Theorem getOpenClawStats_failure_fallbacks
    (w : World) (e : JsError) (lastKnownOpenClaw : option OpenClawStats)
    (existsSync runsVersion : string → bool) (OPENCLAW_PATH : option string)
    (nvmPath : string) :
  openClawStatusJson w = Throws e →
  openclawPath w
  = probe existsSync runsVersion (getOpenclawCandidates OPENCLAW_PATH nvmPath) →
  (getOpenClawStats_loader w lastKnownOpenClaw).2 = lastKnownOpenClaw
  ∧ (∀ lastKnown,
       lastKnownOpenClaw = Some lastKnown →
       (getOpenClawStats_loader w lastKnownOpenClaw).1
       = Returns {| oc_installed := oc_installed lastKnown;
                    oc_status := Down;
                    oc_sessions := oc_sessions lastKnown;
                    oc_tokens := oc_tokens lastKnown;
                    oc_tokens24h := oc_tokens24h lastKnown;
                    oc_lastUpdated := oc_lastUpdated lastKnown;
                    oc_extended := oc_extended lastKnown;
                    oc_cached := Some true;
                    oc_error := oc_error lastKnown |})
  ∧ (∀ latest older,
       lastKnownOpenClaw = None →
       sqlite3_openclaw_stats_latest w = Returns (latest :: older) →
       (getOpenClawStats_loader w lastKnownOpenClaw).1
       = Returns {| oc_installed := true;
                    oc_status := Down;
                    oc_sessions := Some (sr_sessions latest);
                    oc_tokens := Some (sr_tokens latest);
                    oc_tokens24h := Some (t_tokens24h (stats24h w));
                    oc_lastUpdated := Some (sr_timestamp latest * 1000);
                    oc_extended := None;
                    oc_cached := Some true;
                    oc_error := None |})
  ∧ (lastKnownOpenClaw = None →
     queryDb (sqlite3_openclaw_stats_latest w) false = Returns [] →
     (getOpenClawStats_loader w lastKnownOpenClaw).1
     = Returns {| oc_installed := bool_decide (is_Some (openclawPath w));
                  oc_status := Unknown;
                  oc_sessions := None;
                  oc_tokens := None;
                  oc_tokens24h := None;
                  oc_lastUpdated := None;
                  oc_extended := None;
                  oc_cached := None;
                  oc_error := Some (formatError e) |}).
Proof.
  intros Hfail Hpath.
  unfold getOpenClawStats_loader, getOpenClawStats_live. rewrite Hfail. simpl.
  split; [done|]. split; [|split].
  - intros lastKnown ->. reflexivity.
  - intros latest older -> Hrows. simpl. rewrite Hrows. reflexivity.
  - intros -> Hrows. simpl. rewrite Hrows. simpl. do 2 f_equal.
    unfold Boolean_path. destruct (openclawPath w) as [p|] eqn:Hp.
    + assert (p ≠ "") as Hne.
      { apply (getOpenclawCandidates_truthy OPENCLAW_PATH nvmPath).
        apply (probe_elem existsSync runsVersion). congruence. }
      apply String.eqb_neq in Hne. rewrite Hne. reflexivity.
    + reflexivity.
Qed.

Lemma getOpenClawStats_failure_fallbacks_witness :
  (getOpenClawStats_loader fresh_install None).1
  = Returns {| oc_installed := false;
               oc_status := Unknown;
               oc_sessions := None;
               oc_tokens := None;
               oc_tokens24h := None;
               oc_lastUpdated := None;
               oc_extended := None;
               oc_cached := None;
               oc_error := Some "openclaw not found" |}.
Proof.
  destruct (getOpenClawStats_failure_fallbacks fresh_install not_found None
              (λ _, false) (λ _, false) None "/home/me/.nvm/versions/node/v22/bin/openclaw")
    as (_ & _ & _ & H); [reflexivity | reflexivity |].
  exact (H eq_refl eq_refl).
Defined.

(** *** [getHistory] *)

Lemma normalizedRange_invalid range :
  range ∉ ["1h"; "8h"; "24h"; "7d"; "30d"] → normalizedRange range = "1h".
Proof.
  intros Hrange. unfold normalizedRange.
  rewrite bool_decide_eq_false_2; [done|].
  unfold ranges. rewrite not_elem_of_list_to_map_1; [by intros [? ?] | done].
Qed.

Lemma normalizedRange_valid range :
  range ∈ ["1h"; "8h"; "24h"; "7d"; "30d"] → normalizedRange range = range.
Proof.
  intros Hrange. unfold normalizedRange.
  rewrite bool_decide_eq_true_2; [done|].
  repeat (apply elem_of_cons in Hrange as [->|Hrange]; [by vm_compute; eauto|]).
  by apply elem_of_nil in Hrange.
Qed.

(** A miss on a key with no load in flight starts a load, and once its
    loader has returned in some world the load is fulfilled with what the
    loader returned, which is then the cached value. *)
Lemma miss_then_settle key ttlMs (l : Loader) now (s : Cache.state Payload Loader JsError)
    w lastKnown v :
  Cache.fresh_value (Cache.cacheStore s !! key) now ttlMs = None →
  Cache.cacheStore s !! key ≫= Cache.inFlight = None →
  (run_loader l w lastKnown).1 = Returns v →
  ∃ s1 s2,
    Cache.withCache key ttlMs l false now s = (Cache.Pending (Cache.nextLoad s), s1)
    ∧ settle (Cache.nextLoad s) w lastKnown s1 = Some (s2, (run_loader l w lastKnown).2)
    ∧ Cache.settledLoads s2 !! Cache.nextLoad s = Some (Cache.Fulfilled (Some v))
    ∧ Cache.value <$> Cache.cacheStore s2 !! key = Some (Some v).
Proof.
  intros Hstale Hidle Hv. unfold Cache.withCache. rewrite Hstale, Hidle.
  eexists. eexists. split; [reflexivity|].
  unfold settle, Cache.resolveLoad. cbn [Cache.loads].
  rewrite lookup_insert_eq. cbn [mbind option_bind Cache.l_loader]. rewrite Hv.
  cbn [mbind option_bind Cache.l_key Cache.loads Cache.cacheStore Cache.settledLoads
       Cache.nextLoad Cache.loaderCalls].
  rewrite ?lookup_insert_eq.
  split; [reflexivity|]. cbn [Cache.settledLoads Cache.cacheStore].
  rewrite !lookup_insert_eq. done.
Qed.

(** The earlier server reports the range as it was given; its rows are
    the one-hour rows, except for a range that names a member of
    [Object.prototype], for which it has none. *)
Lemma Legacy_getHistory_echoes_range (range : string) (w : World) :
  range ∉ ["1h"; "8h"; "24h"; "7d"; "30d"] →
  Legacy.getHistory range w
  = {| hi_range := range;
       hi_count :=
         if bool_decide (range ∈ Object_prototype) then 0
         else hi_count (Legacy.getHistory "1h" w);
       hi_metrics :=
         if bool_decide (range ∈ Object_prototype) then []
         else hi_metrics (Legacy.getHistory "1h" w) |}.
Proof.
  intros Hrange. unfold Legacy.getHistory at 1, Legacy.seconds_of.
  unfold ranges. rewrite !not_elem_of_list_to_map_1 by done.
  case_bool_decide; reflexivity.
Qed.

(** C6. In the server with the cache, for a [range] outside
    [1h, 8h, 24h, 7d, 30d], [getHistory] does in every state of the cache
    what it does for [1h] (same key, time to live and loader); on a miss
    it starts a load which, once the loader has run, is fulfilled, never
    rejected, with range [1h], the rows of the one-hour query (none when
    the query fails) and their count; and a request without the parameter
    is routed as one with [range=1h].  The earlier server does not do
    so: it reports the range as it was given, and for a range that names
    a member of [Object.prototype] it returns no rows where [1h] returns
    the rows of the last hour. *)
Theorem getHistory_invalid_range_falls_back (range : string) :
  range ∉ ["1h"; "8h"; "24h"; "7d"; "30d"] →
  (∀ now s, getHistory range now s = getHistory "1h" now s)
  ∧ (∀ now s w lastKnown,
       Cache.fresh_value (Cache.cacheStore s !! "history:1h") now 5000 = None →
       Cache.cacheStore s !! "history:1h" ≫= Cache.inFlight = None →
       ∃ s1 s2,
         getHistory range now s = (Cache.Pending (Cache.nextLoad s), s1)
         ∧ settle (Cache.nextLoad s) w lastKnown s1 = Some (s2, lastKnown)
         ∧ Cache.settledLoads s2 !! Cache.nextLoad s
           = Some (Cache.Fulfilled (Some (PHistory
               {| hi_range := "1h";
                  hi_count :=
                    Z.of_nat (length match sqlite3_metrics_since w (Date_now w / 1000 - 3600) with
                                     | Returns rows => rows
                                     | Throws _ => []
                                     end);
                  hi_metrics :=
                    match sqlite3_metrics_since w (Date_now w / 1000 - 3600) with
                    | Returns rows => rows
                    | Throws _ => []
                    end |}))))
  ∧ (∀ w, getHistory_loader (normalizedRange range) w
          = Returns {| hi_range := "1h";
                       hi_count :=
                         Z.of_nat (length match sqlite3_metrics_since w (Date_now w / 1000 - 3600) with
                                          | Returns rows => rows
                                          | Throws _ => []
                                          end);
                       hi_metrics :=
                         match sqlite3_metrics_since w (Date_now w / 1000 - 3600) with
                         | Returns rows => rows
                         | Throws _ => []
                         end |})
  ∧ (∀ a m pathname origin host,
       Server.route {| Server.method := m; Server.url_pathname := pathname;
                       Server.url_range := None;
                       Server.headers_origin := origin; Server.headers_host := host |} a
       = Server.route {| Server.method := m; Server.url_pathname := pathname;
                         Server.url_range := Some "1h";
                         Server.headers_origin := origin; Server.headers_host := host |} a)
  ∧ (∀ w, hi_range (Legacy.getHistory range w) = range
          ∧ hi_range (Legacy.getHistory range w) ≠ hi_range (Legacy.getHistory "1h" w)
          ∧ (range ∉ Object_prototype →
             hi_metrics (Legacy.getHistory range w) = hi_metrics (Legacy.getHistory "1h" w)
             ∧ hi_count (Legacy.getHistory range w) = hi_count (Legacy.getHistory "1h" w))
          ∧ (range ∈ Object_prototype →
             hi_metrics (Legacy.getHistory range w) = []
             ∧ hi_count (Legacy.getHistory range w) = 0)).
Proof.
  intros Hrange.
  assert (∀ w, getHistory_loader "1h" w
               = Returns {| hi_range := "1h";
                            hi_count :=
                              Z.of_nat (length match sqlite3_metrics_since w (Date_now w / 1000 - 3600) with
                                               | Returns rows => rows
                                               | Throws _ => []
                                               end);
                            hi_metrics :=
                              match sqlite3_metrics_since w (Date_now w / 1000 - 3600) with
                              | Returns rows => rows
                              | Throws _ => []
                              end |}) as Hloader.
  { intros w. unfold getHistory_loader.
    change (default 0 (ranges !! "1h")) with 3600.
    destruct (sqlite3_metrics_since w _); reflexivity. }
  split; [|split; [|split; [|split]]].
  - intros now s. unfold getHistory. by rewrite (normalizedRange_invalid range Hrange).
  - intros now s w lastKnown Hstale Hidle.
    unfold getHistory. rewrite (normalizedRange_invalid range Hrange).
    destruct (miss_then_settle "history:1h" 5000 (HistoryLoader "1h") now s w lastKnown
                (PHistory {| hi_range := "1h";
                             hi_count :=
                               Z.of_nat (length match sqlite3_metrics_since w (Date_now w / 1000 - 3600) with
                                                | Returns rows => rows
                                                | Throws _ => []
                                                end);
                             hi_metrics :=
                               match sqlite3_metrics_since w (Date_now w / 1000 - 3600) with
                               | Returns rows => rows
                               | Throws _ => []
                               end |}) Hstale Hidle)
      as (s1 & s2 & Hcall & Hsettle & Hdone & _).
    { cbn [run_loader fst]. by rewrite Hloader. }
    exists s1, s2. done.
  - intros w. by rewrite (normalizedRange_invalid range Hrange).
  - reflexivity.
  - intros w. rewrite (Legacy_getHistory_echoes_range range w Hrange). cbn [hi_range hi_metrics hi_count].
    split; [done|]. split.
    { intros ->. apply Hrange. left. }
    split; intros Hproto.
    + by rewrite bool_decide_eq_false_2.
    + by rewrite bool_decide_eq_true_2.
Qed.

Lemma getHistory_invalid_range_falls_back_witness :
  getHistory "constructor" 1700000000000 Cache.initial
  = getHistory "1h" 1700000000000 Cache.initial
  ∧ hi_range (Legacy.getHistory "constructor" sampled_world) = "constructor"
  ∧ hi_count (Legacy.getHistory "constructor" sampled_world) = 0
  ∧ hi_count (Legacy.getHistory "1h" sampled_world) = 2.
Proof.
  assert ("constructor" ∉ ["1h"; "8h"; "24h"; "7d"; "30d"]) as Hrange.
  { intros H. repeat (apply elem_of_cons in H as [H|H]; [discriminate H|]).
    by apply elem_of_nil in H. }
  destruct (getHistory_invalid_range_falls_back "constructor" Hrange)
    as (Hsame & _ & _ & _ & Hlegacy).
  split; [apply Hsame|].
  destruct (Hlegacy sampled_world) as (Hecho & _ & _ & Hnone).
  split; [exact Hecho|]. split; [|reflexivity].
  apply Hnone. unfold Object_prototype. left.
Defined.

(** *** [getHealthStatus] *)

Lemma probe_none existsSync runsVersion candidates :
  (∀ c, runsVersion c = false) → probe existsSync runsVersion candidates = None.
Proof.
  intros Hnone. induction candidates as [|c rest IH]; simpl; [done|].
  rewrite Hnone. by destruct (_ && _).
Qed.

(** C8 (as the code has it). The health loader always returns.  When
    the query of the store fails for want of the [metrics] table, the
    database check has [ok: true] and [initialized: false], and the status
    is [ok] provided the metrics agent answers and the CLI is absent or
    answers; when the metrics agent fails, or the CLI is installed and its
    status call fails, the status is [degraded]; a CLI that is not
    installed (no candidate passed the probe of its path) is reported as
    such and does not degrade the status, which then is [ok] exactly when
    the database check is ok and the metrics agent answers; a call that
    misses the cache starts a load that is fulfilled with what the loader
    returned; and the listener answers 200 with it. *)
Theorem getHealthStatus_degrades_but_answers (w : World) :
  ∃ health,
    getHealthStatus_loader w = Returns health
    ∧ (∀ e, sqlite3_metrics_latest w = Throws e →
            includes "no such table: metrics" (formatError e) = true →
            db_ok (he_database health) = true
            ∧ db_initialized (he_database health) = Some false
            ∧ ((∃ ok, glances_cpu w = Returns ok) →
               (Boolean_path (openclawPath w) = false
                ∨ ∃ status, openClawStatusJson w = Returns status) →
               he_status health = HealthOk))
    ∧ (∀ e, glances_cpu w = Throws e → he_status health = Degraded)
    ∧ (∀ e, Boolean_path (openclawPath w) = true → openClawStatusJson w = Throws e →
            he_status health = Degraded)
    ∧ (Boolean_path (openclawPath w) = false →
       he_openclaw health
       = OpenclawNotInstalled (openclawDone (health_clock w) - openclawStart (health_clock w))
       ∧ (he_status health = HealthOk ↔
          db_ok (he_database health) = true ∧ ∃ ok, glances_cpu w = Returns ok))
    ∧ (∀ existsSync runsVersion OPENCLAW_PATH nvmPath,
         openclawPath w
         = probe existsSync runsVersion (getOpenclawCandidates OPENCLAW_PATH nvmPath) →
         (∀ c, runsVersion c = false) →
         Boolean_path (openclawPath w) = false)
    ∧ (∀ now s lastKnown,
         Cache.fresh_value (Cache.cacheStore s !! "health") now 5000 = None →
         Cache.cacheStore s !! "health" ≫= Cache.inFlight = None →
         ∃ s1 s2,
           getHealthStatus now s = (Cache.Pending (Cache.nextLoad s), s1)
           ∧ settle (Cache.nextLoad s) w lastKnown s1 = Some (s2, lastKnown)
           ∧ Cache.settledLoads s2 !! Cache.nextLoad s
             = Some (Cache.Fulfilled (Some (PHealth health)))
           ∧ Cache.value <$> Cache.cacheStore s2 !! "health"
             = Some (Some (PHealth health)))
    ∧ (∀ URL_hostname a m origin host,
         Server.aw_health a = getHealthStatus_loader w →
         let res :=
           Server.server URL_hostname
             {| Server.method := "GET"; Server.url_pathname := "/api/health";
                Server.url_range := m;
                Server.headers_origin := origin; Server.headers_host := host |} a in
         Server.statusCode res = 200 ∧ Server.body res = Server.HealthBody health).
Proof.
  eexists. split; [reflexivity|]. cbn [he_status he_database he_openclaw].
  split; [|split; [|split; [|split; [|split; [|split]]]]].
  - intros e Hdb Htable. unfold database_check. rewrite Hdb. simpl. rewrite Htable. simpl.
    split; [done|]. split; [done|].
    intros [ok Hgl] Hoc. unfold glances_check, openclaw_check. rewrite Hgl. simpl.
    destruct Hoc as [-> | [status ->]]; [done|].
    by destruct (Boolean_path (openclawPath w)).
  - intros e Hgl. unfold glances_check. rewrite Hgl. simpl.
    by rewrite orb_true_r.
  - intros e Hpath Hoc. unfold openclaw_check. rewrite Hpath, Hoc. simpl.
    by rewrite orb_true_r.
  - intros Hpath. unfold openclaw_check. rewrite Hpath. cbn [fst snd].
    split; [done|]. rewrite orb_false_r.
    unfold glances_check. destruct (glances_cpu w) as [ok|e]; cbn [fst snd].
    + rewrite orb_false_r. unfold database_check.
      destruct (queryDb (sqlite3_metrics_latest w) true) as [rows|e]; cbn [fst snd db_ok].
      * split; [eauto | done].
      * destruct (includes _ _); cbn [fst snd db_ok]; [split; [eauto | done]|].
        split; [done | by intros [? _]].
    + rewrite orb_true_r. split; [done | by intros [_ [? ?]]].
  - intros existsSync runsVersion OPENCLAW_PATH nvmPath -> Hnone.
    by rewrite probe_none.
  - intros now s lastKnown Hstale Hidle. unfold getHealthStatus.
    destruct (miss_then_settle "health" 5000 HealthLoader now s w lastKnown
                (PHealth
                   {| he_status :=
                        if (database_check w).2 || (glances_check w).2 || (openclaw_check w).2
                        then Degraded else HealthOk;
                      he_timestamp := healthDone (health_clock w);
                      he_api_uptimeSeconds := process_uptime w;
                      he_database := (database_check w).1;
                      he_glances := (glances_check w).1;
                      he_openclaw := (openclaw_check w).1 |}) Hstale Hidle)
      as (s1 & s2 & Hcall & Hsettle & Hdone & Hcached); [reflexivity|].
    exists s1, s2. done.
  - intros URL_hostname a m origin host Ha. unfold Server.server, Server.route. simpl.
    rewrite Ha. simpl. done.
Qed.

(** C8, the claim as written, fails when the CLI fails its probe by not
    being there: no candidate path runs, the status call throws, and the
    check is reported ok, not installed and optional, with the status
    still [ok]. *)
Lemma absent_cli_does_not_degrade :
  openclawPath fresh_install
  = probe (λ _, false) (λ _, false)
      (getOpenclawCandidates None "/home/me/.nvm/versions/node/v22/bin/openclaw")
  ∧ openClawStatusJson fresh_install = Throws not_found
  ∧ ∃ health,
      getHealthStatus_loader fresh_install = Returns health
      ∧ he_openclaw health = OpenclawNotInstalled 1
      ∧ he_status health = HealthOk
      ∧ he_status health ≠ Degraded.
Proof.
  split; [reflexivity|]. split; [reflexivity|].
  eexists. split; [reflexivity|]. split; [reflexivity|]. split; [reflexivity | discriminate].
Qed.

(** The sample world: the table is missing, and the status is still [ok]. *)
Example getHealthStatus_fresh_install :
  getHealthStatus_loader fresh_install
  = Returns {| he_status := HealthOk;
               he_timestamp := 1021;
               he_api_uptimeSeconds := 42;
               he_database := DbNotInitialized 12;
               he_glances := GlancesOk 8;
               he_openclaw := OpenclawNotInstalled 1 |}.
Proof. reflexivity. Qed.

(** *** [getProcessInsights] *)

Lemma collect_length seen procs : (length (collect seen procs) ≤ length procs)%nat.
Proof.
  revert seen. induction procs as [|p rest IH]; intros seen; simpl; [done|].
  case_bool_decide; simpl; [specialize (IH seen) | specialize (IH ({[or_str (rp_name p) "unknown"]} ∪ seen))]; lia.
Qed.

Lemma collect_names seen procs :
  NoDup (p_name <$> collect seen procs)
  ∧ ∀ name, name ∈ (p_name <$> collect seen procs) → name ∉ seen.
Proof.
  revert seen. induction procs as [|p rest IH]; intros seen; simpl.
  - split; [constructor | intros name Hin; by apply elem_of_nil in Hin].
  - case_bool_decide as Hseen; [apply IH|].
    destruct (IH ({[or_str (rp_name p) "unknown"]} ∪ seen)) as [Hnodup Hfresh].
    simpl. split.
    + constructor; [|done]. intros Hin. apply Hfresh in Hin. set_solver.
    + intros name [->|Hin]%elem_of_cons; [done | apply Hfresh in Hin; set_solver].
Qed.

Lemma insights_of_names procs historicalAvg :
  i_name <$> insights_of procs historicalAvg = p_name <$> procs.
Proof. unfold insights_of. rewrite <- list_fmap_compose. reflexivity. Qed.

(** C4. Each current process gets [cpu_high] exactly when it has a
    historical row whose mean CPU exceeds 1 and its CPU exceeds twice that
    mean, and [ram_high] exactly when that does not hold and it has a row
    whose mean RAM exceeds 50 and its RAM exceeds 1.5 times that mean (all
    in double arithmetic); CPU 10 against a mean of 4 over 6 samples is
    [cpu_high] whatever the RAM figures, and CPU 10 against a mean of 6
    over 6 samples is never [cpu_high] and is no anomaly when RAM does
    not stand out. *)
Theorem anomaly_classification (procs : list Proc) (historicalAvg : list AvgRow) :
  Forall2
    (λ proc insight,
       i_name insight = p_name proc
       ∧ (i_anomaly insight = Some cpu_high ↔
          ∃ hist, avgMap historicalAvg !! p_name proc = Some hist
                  ∧ (1 <? h_cpu hist)%float = true
                  ∧ (h_cpu hist * 2 <? p_cpu proc)%float = true)
       ∧ (i_anomaly insight = Some ram_high ↔
          ∃ hist, avgMap historicalAvg !! p_name proc = Some hist
                  ∧ ¬ ((1 <? h_cpu hist)%float = true
                       ∧ (h_cpu hist * 2 <? p_cpu proc)%float = true)
                  ∧ (50 <? h_ram hist)%float = true
                  ∧ (h_ram hist * 1.5 <? p_ram_mb proc)%float = true))
    procs (insights_of procs historicalAvg)
  ∧ (∀ name ram_mb avg_ram,
       i_anomaly
         (insight_of
            (avgMap [{| ar_name := name; ar_avg_cpu := 4; ar_avg_ram := avg_ram;
                        ar_samples := 6 |}])
            {| p_name := name; p_cpu := 10; p_ram_mb := ram_mb |})
       = Some cpu_high)
  ∧ (∀ name ram_mb avg_ram,
       i_anomaly
         (insight_of
            (avgMap [{| ar_name := name; ar_avg_cpu := 6; ar_avg_ram := avg_ram;
                        ar_samples := 6 |}])
            {| p_name := name; p_cpu := 10; p_ram_mb := ram_mb |})
       ≠ Some cpu_high)
  ∧ (∀ name,
       i_anomaly
         (insight_of
            (avgMap [{| ar_name := name; ar_avg_cpu := 6; ar_avg_ram := 0;
                        ar_samples := 6 |}])
            {| p_name := name; p_cpu := 10; p_ram_mb := 0 |})
       = None).
Proof.
  split; [|split; [|split]].
  - unfold insights_of. apply Forall2_fmap_r, Forall_Forall2_diag, Forall_forall.
    intros proc _. split; [done|]. unfold insight_of. cbn [i_anomaly].
    unfold lookup_avgMap.
    destruct (avgMap historicalAvg !! p_name proc) as [hist|].
    + unfold anomaly_of. cbn [truthy hist_cpu hist_ram].
      destruct (1 <? h_cpu hist)%float eqn:H1,
        (h_cpu hist * 2 <? p_cpu proc)%float eqn:H2,
        (50 <? h_ram hist)%float eqn:H3,
        (h_ram hist * 1.5 <? p_ram_mb proc)%float eqn:H4;
        simpl; split; split;
        first [ done
              | intros (h & [= <-] & Hr); rewrite ?H1, ?H2, ?H3, ?H4 in Hr; naive_solver
              | intros _; exists hist; rewrite ?H1, ?H2, ?H3, ?H4; naive_solver ].
    + assert (∀ t, anomaly_of (no_row t) proc = None) as Hno by (by intros []).
      destruct (avgMap historicalAvg !! "__proto__");
        repeat case_match; rewrite Hno; naive_solver.
  - intros name ram_mb avg_ram. unfold insight_of, lookup_avgMap, avgMap. simpl.
    rewrite lookup_insert_eq. reflexivity.
  - intros name ram_mb avg_ram. unfold insight_of, lookup_avgMap, avgMap. simpl.
    rewrite lookup_insert_eq. unfold anomaly_of. simpl.
    change (1 <? 6)%float with true. change (6 * 2 <? 10)%float with false. simpl.
    by destruct (_ && _).
  - intros name. unfold insight_of, lookup_avgMap, avgMap. simpl.
    rewrite lookup_insert_eq. reflexivity.
Qed.

(** C10. The loader returns the insights computed for the current
    processes (one per de-duplicated process among the ten busiest, in
    order, at most ten, with pairwise distinct names) in this way:
    [processes] is their list cut to its first eight, and [anomalies] is
    the sublist of all of them, beyond the eighth too, that carry an
    anomaly.  So an entry can be an anomaly and yet not be among
    [processes]: in the sample world the ninth process by CPU is flagged. *)
Theorem anomalies_from_all_insights (w : World) :
  (let historicalAvg :=
     match sqlite3_process_avg_since w (Date_now w / 1000 - 86400) with
     | Returns rows => rows
     | Throws _ => []
     end in
   let insights := insights_of (currentProcs (glances_processlist w)) historicalAvg in
   getProcessInsights_loader w
   = Returns {| in_processes := take 8 insights;
                in_anomalies := filter (λ i, is_Some (i_anomaly i)) insights;
                in_hasHistory := bool_decide (0 < length historicalAvg)%nat |}
   ∧ insights = insight_of (avgMap historicalAvg) <$> currentProcs (glances_processlist w)
   ∧ (length insights ≤ 10)%nat
   ∧ NoDup (i_name <$> insights)
   ∧ (∀ i, i ∈ filter (λ i, is_Some (i_anomaly i)) insights
           ↔ i_anomaly i ≠ None
             ∧ ∃ proc, proc ∈ currentProcs (glances_processlist w)
                       ∧ i = insight_of (avgMap historicalAvg) proc)
   ∧ (∀ i, i ∈ take 8 insights → i ∈ insights))
  ∧ (∃ insights flagged,
       getProcessInsights_loader fresh_install = Returns insights
       ∧ flagged ∈ in_anomalies insights
       ∧ (flagged ∉ in_processes insights)
       ∧ i_name flagged = "backup").
Proof.
  split.
  - cbv zeta. split; [|split; [|split; [|split; [|split]]]].
    + unfold getProcessInsights_loader.
      destruct (sqlite3_process_avg_since w _); reflexivity.
    + reflexivity.
    + unfold insights_of, currentProcs. rewrite length_fmap.
      destruct (glances_processlist w) as [procs|]; simpl; [|lia].
      etrans; [apply collect_length|]. rewrite length_take. lia.
    + rewrite insights_of_names. unfold currentProcs.
      destruct (glances_processlist w) as [procs|]; [apply collect_names | constructor].
    + intros i. rewrite list_elem_of_filter. unfold insights_of.
      rewrite list_elem_of_fmap. split.
      * intros [[a Ha] (proc & -> & Hin)]. split; [by rewrite Ha | eauto].
      * intros [Hi (proc & Hin & ->)]. split; [|eauto].
        destruct (i_anomaly _); [eauto | done].
    + intros i Hi. by apply (subseteq_take 8).
  - eexists. eexists. split; [vm_compute; reflexivity|].
    cbn [in_anomalies in_processes]. split; [left|]. split; [|reflexivity].
    intros Hin.
    repeat (apply elem_of_cons in Hin as [Hin|Hin]; [discriminate Hin|]).
    by apply elem_of_nil in Hin.
Qed.

End HandlerFacts.

(** ** The front door *)

Module ServerFacts.
Import Js Handlers Server Samples.

Section FrontDoorFacts.
Variable URL_hostname : string → option string.

(** When [getAllowedOrigin] echoes the origin. *)
Lemma getAllowedOrigin_spec (req : Request) (origin : string) :
  getAllowedOrigin URL_hostname req = Some origin ↔
  headers_origin req = Some origin ∧ origin ≠ "" ∧
  ∃ hostname,
    URL_hostname origin = Some hostname
    ∧ (hostname ∈ localHosts
       ∨ (split_colon_0 (or_str (headers_host req) "") ≠ ""
          ∧ hostname = split_colon_0 (or_str (headers_host req) ""))).
Proof.
  unfold getAllowedOrigin.
  destruct (headers_origin req) as [o|]; [|naive_solver].
  destruct (String.eqb o "") eqn:Ho.
  { apply String.eqb_eq in Ho. naive_solver. }
  apply String.eqb_neq in Ho.
  destruct (URL_hostname o) as [hostname|] eqn:Hh; [|naive_solver].
  case_bool_decide as Hlocal; [naive_solver|].
  destruct (String.eqb (split_colon_0 (or_str (headers_host req) "")) "") eqn:Hr; simpl.
  { apply String.eqb_eq in Hr. naive_solver. }
  apply String.eqb_neq in Hr.
  destruct (String.eqb hostname (split_colon_0 (or_str (headers_host req) ""))) eqn:Hm.
  - apply String.eqb_eq in Hm. naive_solver.
  - apply String.eqb_neq in Hm. naive_solver.
Qed.

(** Every response carries the CORS headers set first, then at most a
    content type. *)
Lemma server_headers (req : Request) (a : Awaited) :
  ∃ tl,
    headers (server URL_hostname req a)
    = match getAllowedOrigin URL_hostname req with
      | Some origin => [("Access-Control-Allow-Origin", origin); ("Vary", "Origin")]
      | None => []
      end
      ++ [("Access-Control-Allow-Methods", "GET, OPTIONS");
          ("Access-Control-Allow-Headers", "Content-Type")] ++ tl
    ∧ (tl = [] ∨ ∃ v, tl = [("Content-Type", v)]).
Proof.
  unfold server, proxyGlancesEndpoint, sendJson.
  repeat case_match; cbn [headers]; rewrite <- ?app_assoc; eauto using app_nil_r.
Qed.

(** The header is sent exactly when [getAllowedOrigin] gives an origin. *)
Lemma server_allow_origin_header (req : Request) (a : Awaited) :
  header "Access-Control-Allow-Origin" (server URL_hostname req a)
  = getAllowedOrigin URL_hostname req.
Proof.
  destruct (server_headers req a) as (tl & Hhs & Htl). unfold header. rewrite Hhs.
  destruct (getAllowedOrigin URL_hostname req); [reflexivity|].
  destruct Htl as [-> | [v ->]]; reflexivity.
Qed.

(** C7 (the code at the failing input). A request served on an IPv6
    literal and made from a page on that same host: the text of [Host]
    before its first colon is [[2001], which is not the hostname of the
    origin, so whatever the method and path the response carries no
    [Access-Control-Allow-Origin] header. *)
Theorem getAllowedOrigin_ipv6_host (a : Awaited) (m pathname : string)
    (range : option string) :
  URL_hostname "http://[2001:db8::1]:8888" = Some "[2001:db8::1]" →
  let req := {| method := m; url_pathname := pathname; url_range := range;
                headers_origin := Some "http://[2001:db8::1]:8888";
                headers_host := Some "[2001:db8::1]:8889" |} in
  split_colon_0 "[2001:db8::1]:8889" = "[2001"
  ∧ getAllowedOrigin URL_hostname req = None
  ∧ header "Access-Control-Allow-Origin" (server URL_hostname req a) = None.
Proof.
  intros Hurl req. split; [reflexivity|].
  assert (getAllowedOrigin URL_hostname req = None) as Hnone.
  { unfold getAllowedOrigin, req. cbn [headers_origin headers_host]. simpl String.eqb.
    cbv iota. rewrite Hurl. reflexivity. }
  split; [done|]. by rewrite server_allow_origin_header.
Qed.

(** C9 (as the code has it). A request whose method is neither [GET]
    nor [OPTIONS] is answered 405 with [{ error: 'Method not allowed' }],
    whatever its path; an [OPTIONS] request is answered with no body, 204
    when its origin is allowed and 403 otherwise. *)
Theorem non_get_method_rejected (req : Request) (a : Awaited) :
  method req ≠ "GET" →
  (method req ≠ "OPTIONS" →
   statusCode (server URL_hostname req a) = 405
   ∧ body (server URL_hostname req a) = ErrorBody "Method not allowed" None)
  ∧ (method req = "OPTIONS" →
     body (server URL_hostname req a) = NoBody
     ∧ statusCode (server URL_hostname req a)
       = match getAllowedOrigin URL_hostname req with Some _ => 204 | None => 403 end).
Proof.
  intros Hget. unfold server. split.
  - intros Hopt. apply String.eqb_neq in Hget, Hopt. rewrite Hget, Hopt. done.
  - intros ->. done.
Qed.

End FrontDoorFacts.

Lemma getAllowedOrigin_ipv6_host_witness :
  header "Access-Control-Allow-Origin"
    (server origin_hostname
       (request "GET" "/api/health" (Some "http://[2001:db8::1]:8888")
          (Some "[2001:db8::1]:8889"))
       quiet)
  = None.
Proof.
  apply (getAllowedOrigin_ipv6_host origin_hostname quiet "GET" "/api/health" None).
  reflexivity.
Defined.

Lemma non_get_method_rejected_witness :
  statusCode (server origin_hostname (request "POST" "/api/cron" None None) quiet) = 405
  ∧ body (server origin_hostname (request "POST" "/api/cron" None None) quiet)
    = ErrorBody "Method not allowed" None.
Proof.
  apply (non_get_method_rejected origin_hostname (request "POST" "/api/cron" None None) quiet);
    discriminate.
Defined.

(** C9, the claim as written, fails on [OPTIONS]: a preflight is answered
    403 or 204 with no body, not 405 with an error body. *)
Lemma options_is_not_405 :
  statusCode (server origin_hostname
                (request "OPTIONS" "/api/health" None (Some "127.0.0.1:8889")) quiet)
  = 403
  ∧ statusCode (server origin_hostname
                  (request "OPTIONS" "/api/health" (Some "http://localhost:8888")
                     (Some "127.0.0.1:8889")) quiet)
    = 204
  ∧ body (server origin_hostname
            (request "OPTIONS" "/api/health" None (Some "127.0.0.1:8889")) quiet)
    = NoBody
  ∧ statusCode (server origin_hostname
                  (request "OPTIONS" "/api/health" None (Some "127.0.0.1:8889")) quiet)
    ≠ 405.
Proof. repeat split. discriminate. Qed.

(** Same host by name: the header echoes the origin. *)
Example same_host_allowed :
  header "Access-Control-Allow-Origin"
    (server origin_hostname
       (request "GET" "/api/health" (Some "http://macmini.tail.ts.net:8888")
          (Some "macmini.tail.ts.net:8889"))
       quiet)
  = Some "http://macmini.tail.ts.net:8888".
Proof. reflexivity. Qed.

End ServerFacts.

(** ** More on the cache *)

Module CacheMoreFacts.
Import Cache CacheEvents CacheFacts Samples.
Section Facts.
Context {V L E : Type}.
Implicit Types (s : state V L E) (e : entry V) (c : load V L) (ev : event V L E).

Lemma run_snoc evs ev s : run (evs ++ [ev]) s = step (run evs s) ev.
Proof. unfold run. by rewrite foldl_app. Qed.


(** An event that concerns another key leaves the entry of a key alone:
    neither a call for another key nor the success or failure of another
    key's load changes what is cached for this one. *)
Theorem other_keys_untouched s ev (k : string) :
  event_key s ev ≠ Some k →
  cacheStore (step s ev) !! k = cacheStore s !! k.
Proof.
  intros Hk. destruct ev as [key ttlMs loader stale now | p v now | p err]; simpl in *.
  - destruct (withCache_cases key ttlMs loader stale now s)
      as [(v & _ & ->) | [(_ & q & _ & ->) | (_ & _ & ->)]]; [done | done |].
    simpl. rewrite lookup_insert_ne; [done | congruence].
  - unfold resolveLoad. destruct (loads s !! p) as [c|]; simpl in *; [|done].
    rewrite lookup_insert_ne; [done | congruence].
  - unfold rejectLoad. destruct (loads s !! p) as [c|]; simpl in *; [|done].
    destruct (stale_value c); simpl; (rewrite lookup_insert_ne; [done | congruence]).
Qed.

Lemma accounted_initial : accounted (@initial V L E).
Proof.
  split; simpl; [done | | by left].
  intros p. rewrite !lookup_empty. split; [lia | by intros [[? ?]|[? ?]]].
Qed.

Lemma accounted_settle s p c (store' : gmap string (entry V)) (r : settled V E) :
  accounted s → loads s !! p = Some c →
  accounted {| cacheStore := store';
               loads := delete p (loads s);
               settledLoads := <[p := r]> (settledLoads s);
               nextLoad := nextLoad s;
               loaderCalls := loaderCalls s |}.
Proof.
  intros Hs Hc. split; simpl.
  - apply (calls_counted s Hs).
  - intros q. rewrite (loads_known s Hs q).
    destruct (decide (p = q)) as [<-|Hne].
    + rewrite lookup_delete_eq, lookup_insert_eq, Hc. naive_solver.
    + by rewrite lookup_delete_ne, lookup_insert_ne.
  - intros q. destruct (decide (p = q)) as [<-|Hne].
    + left. apply lookup_delete_eq.
    + rewrite lookup_delete_ne, lookup_insert_ne by done. apply (loads_once s Hs).
Qed.

Lemma accounted_step s ev : accounted s → accounted (step s ev).
Proof.
  intros Hs. destruct ev as [key ttlMs loader stale now | p v now | p err]; simpl.
  - destruct (withCache_cases key ttlMs loader stale now s)
      as [(v & _ & ->) | [(_ & q & _ & ->) | (_ & _ & ->)]]; [done | done |].
    simpl. split; simpl.
    + rewrite length_app, (calls_counted s Hs). simpl. lia.
    + intros q. destruct (decide (nextLoad s = q)) as [<-|Hne].
      * rewrite lookup_insert_eq. split; [eauto | lia].
      * rewrite lookup_insert_ne by done. rewrite <- (loads_known s Hs q). lia.
    + intros q. destruct (decide (nextLoad s = q)) as [<-|Hne].
      * right. destruct (settledLoads s !! nextLoad s) eqn:Hq; [|done].
        assert (nextLoad s < nextLoad s)%nat; [|lia].
        apply (loads_known s Hs). rewrite Hq. eauto.
      * rewrite lookup_insert_ne by done. apply (loads_once s Hs).
  - unfold resolveLoad. destruct (loads s !! p) as [c|] eqn:Hc; simpl; [|done].
    by apply (accounted_settle s p c).
  - unfold rejectLoad. destruct (loads s !! p) as [c|] eqn:Hc; simpl; [|done].
    destruct (stale_value c); by apply (accounted_settle s p c).
Qed.

(** In every state the event loop can reach, the loader has been invoked
    once per load started, and every load started is either still in
    flight or settled, never both: no load is lost and none settles
    twice. *)
Theorem loads_accounted_for (evs : list (event V L E)) :
  length (loaderCalls (run evs initial)) = nextLoad (run evs initial)
  ∧ (∀ p, (p < nextLoad (run evs initial))%nat
          ↔ is_Some (loads (run evs initial) !! p)
            ∨ is_Some (settledLoads (run evs initial) !! p))
  ∧ (∀ p, ¬ (is_Some (loads (run evs initial) !! p)
             ∧ is_Some (settledLoads (run evs initial) !! p))).
Proof.
  assert (accounted (run evs (@initial V L E))) as Hacc.
  { induction evs as [|ev evs IH] using rev_ind; [apply accounted_initial|].
    rewrite run_snoc. by apply accounted_step. }
  split; [apply (calls_counted _ Hacc)|]. split; [apply (loads_known _ Hacc)|].
  intros p [[c Hc] [r Hr]]. destruct (loads_once _ Hacc p); congruence.
Qed.

Lemma snapshots_agree_step s ev :
  consistent s → snapshots_agree s → snapshots_agree (step s ev).
Proof.
  intros Hs Hsnap p c Hc.
  destruct (loads s !! p) as [c0|] eqn:Hp.
  - destruct (settles p ev) eqn:Hev.
    + exfalso. destruct ev as [key ttlMs loader stale now | q v now | q err];
        simpl in *; [done | |]; case_bool_decide; try done; subst q.
      * unfold resolveLoad in Hc. rewrite Hp in Hc. simpl in Hc.
        by rewrite lookup_delete_eq in Hc.
      * unfold rejectLoad in Hc. rewrite Hp in Hc. simpl in Hc.
        destruct (stale_value c0); simpl in Hc; by rewrite lookup_delete_eq in Hc.
    + destruct (load_store s Hs p c0 Hp) as (e & He & Hi).
      destruct (step_keeps_in_flight s ev (l_key c0) e p Hs He Hi Hev) as (He' & _ & Hl').
      rewrite Hl', Hp in Hc. injection Hc as <-.
      destruct (Hsnap p c0 Hp) as (e0 & He0 & Hv & Ht).
      exists e. split; [done|]. rewrite He in He0. by injection He0 as <-.
  - destruct ev as [key ttlMs loader stale now | q v now | q err]; simpl in Hc.
    + destruct (withCache_cases key ttlMs loader stale now s)
        as [(v & _ & Heq) | [(_ & q & _ & Heq) | (_ & _ & Heq)]];
        rewrite Heq in Hc; simpl in Hc; [congruence | congruence |].
      destruct (decide (nextLoad s = p)) as [<-|Hne].
      * rewrite lookup_insert_eq in Hc. injection Hc as <-. cbn [step]. rewrite Heq. simpl.
        rewrite lookup_insert_eq. eauto.
      * rewrite lookup_insert_ne in Hc by done. congruence.
    + unfold resolveLoad in Hc. destruct (loads s !! q) as [cq|]; simpl in Hc; [|congruence].
      destruct (decide (q = p)) as [->|Hne];
        [by rewrite lookup_delete_eq in Hc | rewrite lookup_delete_ne in Hc by done; congruence].
    + unfold rejectLoad in Hc. destruct (loads s !! q) as [cq|]; simpl in Hc; [|congruence].
      destruct (stale_value cq); simpl in Hc;
        (destruct (decide (q = p)) as [->|Hne];
         [by rewrite lookup_delete_eq in Hc | rewrite lookup_delete_ne in Hc by done; congruence]).
Qed.

Lemma snapshots_agree_run (evs : list (event V L E)) :
  snapshots_agree (run evs initial).
Proof.
  induction evs as [|ev evs IH] using rev_ind.
  - intros p c. simpl. by rewrite lookup_empty.
  - rewrite run_snoc. apply snapshots_agree_step; [|done].
    apply consistent_run, consistent_initial.
Qed.

(** In every reachable state, the value and the timestamp cached for a
    key change only when a load of that key resolves, to the value it
    resolved with and the time of its resolution; calls, and loads that
    fail, leave them as they are. *)
Theorem timestamp_moves_only_on_success (evs : list (event V L E)) ev (k : string) :
  let s := run evs initial in
  (ex_value (cacheStore (step s ev) !! k), ex_timestamp (cacheStore (step s ev) !! k))
  = match ev with
    | Resolve p v now =>
        match loads s !! p with
        | Some c =>
            if bool_decide (l_key c = k) then (v, now)
            else (ex_value (cacheStore s !! k), ex_timestamp (cacheStore s !! k))
        | None => (ex_value (cacheStore s !! k), ex_timestamp (cacheStore s !! k))
        end
    | _ => (ex_value (cacheStore s !! k), ex_timestamp (cacheStore s !! k))
    end.
Proof.
  intros s.
  assert (Hsnap : snapshots_agree s) by apply snapshots_agree_run.
  destruct ev as [key ttlMs loader stale now | p v now | p err]; simpl.
  - destruct (withCache_cases key ttlMs loader stale now s)
      as [(v & _ & ->) | [(_ & q & _ & ->) | (_ & _ & ->)]]; [done | done |].
    simpl. destruct (decide (key = k)) as [->|Hne].
    + by rewrite lookup_insert_eq.
    + by rewrite lookup_insert_ne.
  - unfold resolveLoad. destruct (loads s !! p) as [c|] eqn:Hc; simpl; [|done].
    case_bool_decide as Hk.
    + subst k. by rewrite lookup_insert_eq.
    + by rewrite lookup_insert_ne.
  - unfold rejectLoad. destruct (loads s !! p) as [c|] eqn:Hc; simpl; [|done].
    destruct (Hsnap p c Hc) as (e & He & Hv & Ht).
    destruct (decide (l_key c = k)) as [<-|Hne].
    + rewrite He. simpl. rewrite Hv, Ht. unfold stale_value.
      destruct (l_allowStale c); simpl; [destruct (ex_value (l_existing c)) eqn:Hx|];
        simpl; rewrite lookup_insert_eq; simpl; congruence.
    + destruct (stale_value c); simpl; by rewrite lookup_insert_ne.
Qed.

End Facts.


Lemma other_keys_untouched_witness :
  cacheStore (step (run demo_first_load (@initial Z string string))
                   (Call "cron-jobs" 15000 "cron-loader" false 50)) !! "health"
  = Some (Entry (Some 7) 40 None).
Proof.
  rewrite (other_keys_untouched (run demo_first_load (@initial Z string string))
             (Call "cron-jobs" 15000 "cron-loader" false 50) "health") by discriminate.
  by vm_compute.
Defined.

End CacheMoreFacts.

(** ** The handlers as the event loop runs them *)

Module HandlerTraceFacts.
Import Js Handlers MoreHandlers Samples.

Lemma key_of_inj l1 l2 : key_of l1 = key_of l2 → l1 = l2.
Proof.
  destruct l1, l2; simpl; intros H; by simplify_eq.
Qed.

Lemma own_payloads_call l ttlMs now s :
  own_payloads s → own_payloads (Cache.withCache (key_of l) ttlMs l false now s).2.
Proof.
  intros (Hloads & Hstore & Hkeys).
  destruct (CacheFacts.withCache_cases (key_of l) ttlMs l false now s)
    as [(v & _ & ->) | [(_ & q & _ & ->) | (_ & _ & ->)]]; [done | done |].
  split; [|split]; cbn [snd Cache.loads Cache.cacheStore].
  - intros p c. destruct (decide (Cache.nextLoad s = p)) as [<-|Hne].
    + rewrite lookup_insert_eq. intros [= <-]. simpl. split; [done|]. split; [done|].
      intros v Hv. destruct (Cache.cacheStore s !! key_of l) as [e|] eqn:He; [|done].
      by apply (Hstore l e v).
    + rewrite lookup_insert_ne by done. apply Hloads.
  - intros l' e v. destruct (decide (key_of l = key_of l')) as [Heq|Hne].
    + rewrite Heq, lookup_insert_eq. intros [= <-]. simpl.
      apply key_of_inj in Heq as <-.
      destruct (Cache.cacheStore s !! key_of l) as [e|] eqn:He; [|done].
      by apply (Hstore l e v).
    + rewrite lookup_insert_ne by done. apply Hstore.
  - intros k e v. destruct (decide (key_of l = k)) as [<-|Hne].
    + eauto.
    + rewrite lookup_insert_ne by done. apply Hkeys.
Qed.

Lemma own_payloads_settle p w lk s s' lk' :
  own_payloads s → settle p w lk s = Some (s', lk') → own_payloads s'.
Proof.
  intros (Hloads & Hstore & Hkeys) Hsettle. unfold settle in Hsettle.
  destruct (Cache.loads s !! p) as [c|] eqn:Hc; simpl in Hsettle; [|done].
  destruct (Hloads p c Hc) as (Hkey & Hstale & Hsnap).
  assert (Hrest : ∀ e',
    (∀ v, Cache.value e' = Some v →
          ∃ w lk, (run_loader (Cache.l_loader c) w lk).1 = Returns v) →
    ∀ st, own_payloads {| Cache.cacheStore := <[Cache.l_key c := e']> (Cache.cacheStore s);
                          Cache.loads := delete p (Cache.loads s);
                          Cache.settledLoads := st;
                          Cache.nextLoad := Cache.nextLoad s;
                          Cache.loaderCalls := Cache.loaderCalls s |}).
  { intros e' He' st. split; [|split]; simpl.
    - intros q cq. destruct (decide (p = q)) as [<-|Hne].
      + by rewrite lookup_delete_eq.
      + rewrite lookup_delete_ne by done. apply Hloads.
    - intros l e v. destruct (decide (Cache.l_key c = key_of l)) as [Heq|Hne].
      + rewrite Heq, lookup_insert_eq. intros [= <-] Hv.
        rewrite Hkey in Heq. apply key_of_inj in Heq as <-. by apply He'.
      + rewrite lookup_insert_ne by done. apply Hstore.
    - intros k e v. destruct (decide (Cache.l_key c = k)) as [<-|Hne].
      + eauto.
      + rewrite lookup_insert_ne by done. apply Hkeys. }
  destruct (run_loader (Cache.l_loader c) w lk).1 as [v|err] eqn:Hrun.
  - unfold Cache.resolveLoad in Hsettle. rewrite Hc in Hsettle. simpl in Hsettle.
    injection Hsettle as <- <-. apply Hrest. simpl. intros v' [= <-]. eauto.
  - unfold Cache.rejectLoad in Hsettle. rewrite Hc in Hsettle. simpl in Hsettle.
    unfold Cache.stale_value in Hsettle. rewrite Hstale in Hsettle.
    injection Hsettle as <- <-. apply Hrest. simpl. apply Hsnap.
Qed.

Lemma own_payloads_hrun (evs : list hevent) : own_payloads (hrun evs).1.
Proof.
  induction evs as [|ev evs IH] using rev_ind.
  - split; [|split]; simpl; intros *; by rewrite lookup_empty.
  - unfold hrun in *. rewrite foldl_app. simpl.
    set (hs := foldl hstep (Cache.initial, None) evs) in *.
    destruct ev as [now | now | range now | now | now | p w]; simpl;
      try (by apply (own_payloads_call Tokens24hLoader));
      try (by apply (own_payloads_call OpenClawStatsLoader));
      try (by apply (own_payloads_call (HistoryLoader (normalizedRange range))));
      try (by apply (own_payloads_call HealthLoader));
      try (by apply (own_payloads_call ProcessInsightsLoader)).
    destruct (settle p w hs.2 hs.1) as [[s' lk']|] eqn:Hsettle; simpl; [|done].
    by eapply own_payloads_settle.
Qed.

Lemma served_by_loader l ttlMs now (evs : list hevent) v s' :
  Cache.withCache (key_of l) ttlMs l false now (hrun evs).1 = (Cache.Now (Some v), s') →
  ∃ w lk, (run_loader l w lk).1 = Returns v.
Proof.
  intros Hcall.
  destruct (own_payloads_hrun evs) as (_ & Hstore & _).
  destruct (CacheFacts.withCache_cases (key_of l) ttlMs l false now (hrun evs).1)
    as [(v' & Hf & Heq) | [(_ & q & _ & Heq) | (_ & _ & Heq)]];
    rewrite Heq in Hcall; [|done|done].
  injection Hcall as -> _. unfold Cache.fresh_value in Hf.
  destruct (Cache.cacheStore (hrun evs).1 !! key_of l) as [e|] eqn:He; [|done].
  destruct (Cache.value e) as [x|] eqn:Hx; [|done].
  case_bool_decide; [|done]. injection Hf as ->. by apply (Hstore l e v).
Qed.

(** Whatever calls and loads came before, a value a handler gets at once
    from the cache was returned by that handler's own loader: a history
    hit carries the normalised range asked for and a count that is the
    number of its rows; a token hit has a delta that is not negative; a
    health, status or insights hit is of its own kind, the insights with
    at most eight processes. *)
Theorem handlers_get_their_own_payloads (evs : list hevent) (now : Z) :
  (∀ range v s',
     getHistory range now (hrun evs).1 = (Cache.Now (Some v), s') →
     ∃ h, v = PHistory h ∧ hi_range h = normalizedRange range
          ∧ hi_count h = Z.of_nat (length (hi_metrics h)))
  ∧ (∀ v s',
       get24HourTokens now (hrun evs).1 = (Cache.Now (Some v), s') →
       ∃ t, v = PTokens24h t ∧ 0 ≤ t_tokens24h t)
  ∧ (∀ v s',
       getOpenClawStats now (hrun evs).1 = (Cache.Now (Some v), s') →
       ∃ stats, v = POpenClawStats stats)
  ∧ (∀ v s',
       getHealthStatus now (hrun evs).1 = (Cache.Now (Some v), s') →
       ∃ health, v = PHealth health)
  ∧ (∀ v s',
       getProcessInsights now (hrun evs).1 = (Cache.Now (Some v), s') →
       ∃ insights, v = PInsights insights ∧ (length (in_processes insights) ≤ 8)%nat).
Proof.
  split; [|split; [|split; [|split]]].
  - intros range v s' Hcall.
    destruct (served_by_loader (HistoryLoader (normalizedRange range)) 5000 now evs v s' Hcall)
      as (w & lk & Hrun).
    simpl in Hrun. unfold getHistory_loader in Hrun.
    destruct (queryDb (sqlite3_metrics_since w _) false) as [rows|]; simpl in Hrun; [|done].
    injection Hrun as <-. eauto.
  - intros v s' Hcall.
    destruct (served_by_loader Tokens24hLoader 15000 now evs v s' Hcall) as (w & lk & Hrun).
    simpl in Hrun. unfold get24HourTokens_loader in Hrun.
    destruct (queryDb (sqlite3_openclaw_stats_since w _) false) as [rows|]; simpl in Hrun; [|done].
    injection Hrun as <-. eexists. split; [done|]. destruct rows; simpl; lia.
  - intros v s' Hcall.
    destruct (served_by_loader OpenClawStatsLoader 10000 now evs v s' Hcall) as (w & lk & Hrun).
    simpl in Hrun. destruct (getOpenClawStats_loader w lk).1; simpl in Hrun; [|done].
    injection Hrun as <-. eauto.
  - intros v s' Hcall.
    destruct (served_by_loader HealthLoader 5000 now evs v s' Hcall) as (w & lk & Hrun).
    simpl in Hrun. injection Hrun as <-. eauto.
  - intros v s' Hcall.
    destruct (served_by_loader ProcessInsightsLoader 10000 now evs v s' Hcall)
      as (w & lk & Hrun).
    simpl in Hrun. unfold getProcessInsights_loader in Hrun.
    destruct (queryDb (sqlite3_process_avg_since w _) false) as [rows|]; simpl in Hrun; [|done].
    injection Hrun as <-. eexists. split; [done|]. simpl. rewrite length_take. lia.
Qed.

(** [lastKnownOpenClaw] only ever holds what a live call returned. *)
Lemma lastKnown_is_live (evs : list hevent) stats :
  (hrun evs).2 = Some stats → ∃ w, getOpenClawStats_live w = Returns stats.
Proof.
  revert stats. induction evs as [|ev evs IH] using rev_ind; [done|].
  unfold hrun in *. rewrite foldl_app. simpl.
  set (hs := foldl hstep (Cache.initial, None) evs) in *.
  destruct ev as [now | now | range now | now | now | p w]; simpl; try apply IH.
  unfold settle. destruct (Cache.loads hs.1 !! p) as [c|]; simpl; [|apply IH].
  assert (∀ stats, (run_loader (Cache.l_loader c) w hs.2).2 = Some stats →
                   ∃ w, getOpenClawStats_live w = Returns stats) as Hlk.
  { intros stats. destruct (Cache.l_loader c); simpl; try apply IH.
    unfold getOpenClawStats_loader.
    destruct (getOpenClawStats_live w) as [st|] eqn:Hlive; simpl; [|apply IH].
    intros [= <-]. eauto. }
  destruct (run_loader (Cache.l_loader c) w hs.2).1; simpl.
  - unfold Cache.resolveLoad. by destruct (Cache.loads hs.1 !! p).
  - unfold Cache.rejectLoad. by destruct (Cache.loads hs.1 !! p).
Qed.

(** Whatever came before, the loader of [getOpenClawStats] answers and
    does not throw: [running] exactly when the live call of the CLI
    returned; [down] always with [installed] and [cached] true and with
    session, token and update figures; [unknown] only when there is no
    snapshot, with an error text and no figures. *)
Theorem getOpenClawStats_answer_shape (evs : list hevent) (w : World) :
  ∃ stats,
    (getOpenClawStats_loader w (hrun evs).2).1 = Returns stats
    ∧ (oc_status stats = Running ↔ ∃ status, openClawStatusJson w = Returns status)
    ∧ (oc_status stats = Down →
       oc_installed stats = true ∧ oc_cached stats = Some true
       ∧ is_Some (oc_sessions stats) ∧ is_Some (oc_tokens stats)
       ∧ is_Some (oc_lastUpdated stats))
    ∧ (oc_status stats = Unknown →
       (hrun evs).2 = None ∧ is_Some (oc_error stats)
       ∧ oc_sessions stats = None ∧ oc_tokens stats = None).
Proof.
  unfold getOpenClawStats_loader, getOpenClawStats_live.
  destruct (openClawStatusJson w) as [status|e] eqn:Hstatus; simpl.
  - eexists. split; [reflexivity|]. simpl. naive_solver.
  - unfold getOpenClawStats_fallback.
    destruct (hrun evs).2 as [lastKnown|] eqn:Hlk.
    + destruct (lastKnown_is_live evs lastKnown Hlk) as (w' & Hlive).
      unfold getOpenClawStats_live in Hlive.
      destruct (openClawStatusJson w') as [status'|]; simpl in Hlive; [|done].
      injection Hlive as <-. eexists. split; [reflexivity|]. simpl. naive_solver.
    + unfold queryDb.
      destruct (sqlite3_openclaw_stats_latest w) as [[|row rows]|err];
        simpl; (eexists; split; [reflexivity|]); simpl; naive_solver.
Qed.

(** After a live call that succeeded, a failing one serves what that call
    returned, marked down and cached: same sessions, tokens and update
    time; and the snapshot stays for the failures that follow. *)
Theorem last_success_served_on_failure
    (w w' : World) (lastKnown : option OpenClawStats) (stats : OpenClawStats) (e : JsError) :
  getOpenClawStats_live w = Returns stats →
  openClawStatusJson w' = Throws e →
  getOpenClawStats_loader w' (getOpenClawStats_loader w lastKnown).2
  = (Returns {| oc_installed := true;
                oc_status := Down;
                oc_sessions := oc_sessions stats;
                oc_tokens := oc_tokens stats;
                oc_tokens24h := oc_tokens24h stats;
                oc_lastUpdated := oc_lastUpdated stats;
                oc_extended := oc_extended stats;
                oc_cached := Some true;
                oc_error := None |},
     Some stats).
Proof.
  intros Hlive Hfail. unfold getOpenClawStats_loader at 2. rewrite Hlive. simpl.
  unfold getOpenClawStats_loader.
  assert (getOpenClawStats_live w' = Throws e) as ->.
  { unfold getOpenClawStats_live. by rewrite Hfail. }
  simpl. unfold served_from_snapshot. unfold getOpenClawStats_live in Hlive.
  destruct (openClawStatusJson w); simpl in Hlive; [|done].
  by injection Hlive as <-.
Qed.

Lemma last_success_served_on_failure_witness :
  (getOpenClawStats_loader fresh_install (getOpenClawStats_loader live_world None).2).1
  = Returns {| oc_installed := true;
               oc_status := Down;
               oc_sessions := Some 2;
               oc_tokens := Some 49200;
               oc_tokens24h := Some 900;
               oc_lastUpdated := Some 1700000000000;
               oc_extended := Some {| x_model := "claude-opus-4-5";
                                      x_contextUsed := 24;
                                      x_contextTotal := 200000;
                                      x_contextRemaining := 152000;
                                      x_memoryChunks := Some 12;
                                      x_memoryFiles := Some 3;
                                      x_gatewayLatency := Some 8;
                                      x_gatewayStatus := "connected";
                                      x_heartbeatInterval := Some "30m";
                                      x_channels := [] |};
               oc_cached := Some true;
               oc_error := None |}.
Proof.
  exact (f_equal fst
           (last_success_served_on_failure live_world fresh_install None live_stats
              not_found eq_refl eq_refl)).
Defined.

End HandlerTraceFacts.

(** ** The remaining handlers *)

Module MoreHandlerFacts.
Import Js Handlers Text MoreHandlers Samples.

(** *** Locating the CLI *)

Lemma dedupe_spec seen l x : x ∈ dedupe seen l ↔ x ∈ l ∧ x ∉ seen.
Proof.
  revert seen. induction l as [|y l IH]; intros seen; simpl.
  - split; [by intros ?%elem_of_nil | by intros [?%elem_of_nil _]].
  - case_bool_decide as Hseen.
    + rewrite IH, elem_of_cons. split; [tauto|].
      intros [[->|Hx] Hn]; [contradiction | done].
    + rewrite !elem_of_cons, IH, elem_of_cons. split.
      * intros [->|[Hx Hn]]; [tauto|]. split; [tauto|]. tauto.
      * intros [[->|Hx] Hn]; [by left|].
        destruct (decide (x = y)) as [->|Hne]; [by left|]. right. tauto.
Qed.

Lemma dedupe_NoDup seen l : NoDup (dedupe seen l).
Proof.
  revert seen. induction l as [|y l IH]; intros seen; simpl; [constructor|].
  case_bool_decide as Hseen; [apply IH|].
  constructor; [|apply IH]. rewrite dedupe_spec, elem_of_cons. naive_solver.
Qed.

(** The candidates are pairwise distinct and none is empty; the bare
    command name is always among them; and a non-empty [OPENCLAW_PATH] is
    the one tried first. *)
Theorem getOpenclawCandidates_shape (OPENCLAW_PATH : option string) (nvmPath : string) :
  NoDup (getOpenclawCandidates OPENCLAW_PATH nvmPath)
  ∧ (∀ p, p ∈ getOpenclawCandidates OPENCLAW_PATH nvmPath → p ≠ "")
  ∧ "openclaw" ∈ getOpenclawCandidates OPENCLAW_PATH nvmPath
  ∧ (∀ override, OPENCLAW_PATH = Some override → override ≠ "" →
       head (getOpenclawCandidates OPENCLAW_PATH nvmPath) = Some override).
Proof.
  split; [apply dedupe_NoDup|]. split; [|split].
  - intros p Hp. unfold getOpenclawCandidates in Hp.
    apply dedupe_spec in Hp as [Hp _].
    apply list_elem_of_omap in Hp as (o & _ & Ho).
    destruct o as [[|c s]|]; simpl in Ho; [done | | done]. by injection Ho as <-.
  - unfold getOpenclawCandidates. apply dedupe_spec. split; [|by intros ?%elem_of_nil].
    apply list_elem_of_omap. exists (Some "openclaw"). split; [|done].
    do 4 right. left.
  - intros override -> Hne. unfold getOpenclawCandidates. simpl.
    destruct override as [|c s]; [done|]. cbn [dedupe].
    rewrite bool_decide_eq_false_2; [done | by intros ?%elem_of_nil].
Qed.

Lemma probe_find existsSync runsVersion candidates :
  probe existsSync runsVersion candidates
  = List.find (λ c, (String.eqb c "openclaw" || existsSync c) && runsVersion c) candidates.
Proof.
  induction candidates as [|c rest IH]; simpl; [done|]. rewrite IH.
  by destruct (String.eqb c "openclaw"), (existsSync c), (runsVersion c).
Qed.

(** The path is probed once: the first call finds the first candidate, in
    order, that is the bare command or an existing file and whose
    [--version] runs; every later call returns that same answer, whatever
    has changed on disk since. *)
Theorem getOpenclawPath_probes_once
    (existsSync runsVersion existsSync' runsVersion' : string → bool)
    (candidates candidates' : list string) :
  (getOpenclawPath existsSync runsVersion candidates None).1
  = List.find (λ c, (String.eqb c "openclaw" || existsSync c) && runsVersion c) candidates
  ∧ getOpenclawPath existsSync' runsVersion' candidates'
      (getOpenclawPath existsSync runsVersion candidates None).2
    = ((getOpenclawPath existsSync runsVersion candidates None).1,
       (getOpenclawPath existsSync runsVersion candidates None).2).
Proof. split; [apply probe_find | reflexivity]. Qed.

(** *** [getOpenClawStatusJson] *)

Lemma indexOf_app_brace c pre rest :
  indexOf c pre = None →
  indexOf c (String.append pre (String c rest)) = Some (String.length pre).
Proof.
  induction pre as [|c' pre IH]; simpl.
  - intros _. by rewrite Ascii.eqb_refl.
  - destruct (Ascii.eqb c' c); [done|]. intros Hpre.
    destruct (indexOf c pre); [done|]. by rewrite IH.
Qed.

Lemma slice_app pre s : slice (String.length pre) (String.append pre s) = s.
Proof. induction pre as [|c pre IH]; simpl; [by destruct s | done]. Qed.

(** Warnings printed before the JSON do no harm: text without a brace in
    front of output that starts with one is dropped before parsing, so
    the loader returns what it returns for the bare JSON; output with no
    brace at all goes to the parser as it is. *)
Theorem strip_prefix_drops_warnings (warnings json : string)
    (openclawPath : option string) (JSON_parse : string → result StatusJson) :
  indexOf "{"%char warnings = None →
  startsWith "{" json = true →
  strip_prefix (String.append warnings json) = json
  ∧ getOpenClawStatusJson_loader openclawPath (Returns (String.append warnings json)) JSON_parse
    = getOpenClawStatusJson_loader openclawPath (Returns json) JSON_parse
  ∧ strip_prefix warnings = warnings.
Proof.
  intros Hw Hj.
  assert (∃ rest, json = String "{"%char rest) as [rest ->].
  { destruct json as [|c rest]; [done|]. unfold startsWith in Hj.
    cbn [String.prefix] in Hj.
    destruct (ascii_dec "{"%char c) as [<-|]; [eauto | done]. }
  assert (strip_prefix (String.append warnings (String "{"%char rest)) = String "{"%char rest)
    as Hstrip.
  { unfold strip_prefix. rewrite indexOf_app_brace by done. apply slice_app. }
  split; [done|]. split.
  - unfold getOpenClawStatusJson_loader. destruct (Boolean_path openclawPath); [|done].
    simpl. rewrite Hstrip. unfold strip_prefix. simpl. done.
  - unfold strip_prefix. by rewrite Hw.
Qed.

Lemma strip_prefix_drops_warnings_witness :
  strip_prefix "Config warning: unknown key
{}" = "{}".
Proof.
  apply (strip_prefix_drops_warnings "Config warning: unknown key
" "{}" None (λ _, Throws not_found)); reflexivity.
Defined.

(** *** [resolvePricing] and [getTokenBreakdown] *)

Lemma or_str_Some s : or_str (Some s) "" = s.
Proof. by destruct s. Qed.

(** A rate is always found, so reading it never throws; the most specific
    family wins in the order opus-4-5, sonnet-4, 3-5-sonnet whatever else
    the name contains; a missing or unknown model is priced at the default
    rate, which is the opus rate; and letter case does not matter. *)
Theorem resolvePricing_rates (model : option string) :
  let name := toLowerCase (or_str model "") in
  ∃ rate,
    (resolvePricing model).2 = Some rate
    ∧ PRICING !! (resolvePricing model).1 = Some rate
    ∧ (includes "opus-4-5" name = true →
       resolvePricing model
       = ("claude-opus-4-5", Some {| rate_input := 15; rate_output := 75 |}))
    ∧ (includes "opus-4-5" name = false → includes "sonnet-4" name = true →
       resolvePricing model
       = ("claude-sonnet-4", Some {| rate_input := 3; rate_output := 15 |}))
    ∧ (includes "opus-4-5" name = false → includes "sonnet-4" name = false →
       includes "3-5-sonnet" name || includes "3.5-sonnet" name = true →
       resolvePricing model
       = ("claude-3-5-sonnet", Some {| rate_input := 3; rate_output := 15 |}))
    ∧ (includes "opus-4-5" name = false → includes "sonnet-4" name = false →
       includes "3-5-sonnet" name || includes "3.5-sonnet" name = false →
       resolvePricing model
       = ("default", Some {| rate_input := 15; rate_output := 75 |}))
    ∧ (∀ other, toLowerCase other = name → resolvePricing (Some other) = resolvePricing model).
Proof.
  intros name. unfold resolvePricing. fold name. unfold pricingRules. cbn [List.find fst snd].
  assert (∀ other, toLowerCase other = name →
            toLowerCase (or_str (Some other) "") = name) as Hcase.
  { intros other <-. by rewrite or_str_Some. }
  destruct (includes "opus-4-5" name) eqn:H1;
    [|destruct (includes "sonnet-4" name) eqn:H2;
      [|destruct (includes "3-5-sonnet" name || includes "3.5-sonnet" name) eqn:H3]];
    (eexists; split; [by vm_compute|]; split; [by vm_compute|];
     repeat split; try done;
     intros other Hother; rewrite (Hcase other Hother), ?H1, ?H2, ?H3; reflexivity).
Qed.

(** For a total below 4096, the estimated input is the total's quarter
    rounded to the nearest integer, halves up, and the output its three
    quarters rounded likewise; so the two add up to the total except when
    the total leaves remainder 2 on division by 4, where they exceed it
    by one. *)
Theorem token_split_rounding (totalTokens : Z) :
  0 ≤ totalTokens < 4096 →
  (estimatedInput totalTokens =? Number ((totalTokens + 2) / 4))%float = true
  ∧ (estimatedOutput totalTokens =? Number ((3 * totalTokens + 2) / 4))%float = true
  ∧ (totalTokens + 2) / 4 + (3 * totalTokens + 2) / 4
    = totalTokens + (if totalTokens mod 4 =? 2 then 1 else 0).
Proof.
  intros Hrange.
  assert (forallb split_checked (seqZ 0 4096) = true) as Hall by (by vm_compute).
  rewrite forallb_forall in Hall.
  assert (split_checked totalTokens = true) as Hok.
  { apply Hall, list_elem_of_In, elem_of_seqZ. lia. }
  unfold split_checked in Hok.
  apply andb_true_iff in Hok as [Hok H3]. apply andb_true_iff in Hok as [H1 H2].
  split; [done|]. split; [done|]. by apply Z.eqb_eq.
Qed.

Lemma token_split_rounding_witness :
  (estimatedInput 2 =? 1)%float = true ∧ (estimatedOutput 2 =? 2)%float = true.
Proof.
  destruct (token_split_rounding 2) as (H1 & H2 & _); [lia|]. by split.
Defined.

(** *** [getCronJobs] *)

Lemma or_str_truthy x d : d ≠ "" → or_str x d ≠ "".
Proof. intros Hd. destruct x as [[|c s]|]; simpl; done. Qed.

(** The cron handler never fails: no CLI, or a failed or unparsable
    listing, gives no jobs; otherwise it gives one job per listed job, in
    order, with the same [id] and [enabled], a name and a schedule that
    are never empty, and run times and status that are a value or
    [null], never [0] or the empty string. *)
Theorem getCronJobs_normalized (openclawPath : option string)
    (cron_list : result (list CronJobJson)) :
  (∀ job, job ∈ getCronJobs_loader openclawPath cron_list →
     job_name job ≠ "" ∧ job_schedule job ≠ ""
     ∧ job_nextRun job ≠ Some 0 ∧ job_lastRun job ≠ Some 0
     ∧ job_lastStatus job ≠ Some "")
  ∧ (Boolean_path openclawPath = false → getCronJobs_loader openclawPath cron_list = [])
  ∧ (∀ e, cron_list = Throws e → getCronJobs_loader openclawPath cron_list = [])
  ∧ (∀ listed,
       Boolean_path openclawPath = true → cron_list = Returns listed →
       job_id <$> getCronJobs_loader openclawPath cron_list = cj_id <$> listed
       ∧ job_enabled <$> getCronJobs_loader openclawPath cron_list = cj_enabled <$> listed).
Proof.
  unfold getCronJobs_loader. split; [|split; [|split]].
  - intros job Hjob.
    destruct (Boolean_path openclawPath); [|by apply elem_of_nil in Hjob].
    destruct cron_list as [listed|]; [|by apply elem_of_nil in Hjob].
    apply list_elem_of_fmap in Hjob as (raw & -> & _). unfold normalize_job. simpl.
    split; [by apply or_str_truthy|]. split; [by apply or_str_truthy, or_str_truthy|].
    split; [|split].
    + destruct (cj_state_nextRunAtMs raw) as [n|]; simpl; [|done].
      by destruct n.
    + destruct (cj_state_lastRunAtMs raw) as [n|]; simpl; [|done].
      by destruct n.
    + destruct (cj_state_lastStatus raw) as [[|c t]|]; simpl; done.
  - by intros ->.
  - intros e ->. by destruct (Boolean_path openclawPath).
  - intros listed -> ->. rewrite <- !list_fmap_compose. done.
Qed.

(** *** [getConnections] *)

Lemma span_no_colon s :
  indexOf ":"%char (span (λ c, negb (Ascii.eqb c ":"%char)) s).1 = None.
Proof.
  induction s as [|c s IH]; simpl; [done|].
  destruct (Ascii.eqb c ":"%char) eqn:Hc; simpl; [done|]. by rewrite Hc, IH.
Qed.

Lemma span_digits s :
  Forall (λ c, is_digit c = true) (list_ascii_of_string (span is_digit s).1).
Proof.
  induction s as [|c s IH]; simpl; [constructor|].
  destruct (is_digit c) eqn:Hc; simpl; [by constructor | constructor].
Qed.

Lemma parseInt_digits_nonneg digits :
  Forall (λ c, is_digit c = true) (list_ascii_of_string digits) → 0 ≤ parseInt digits.
Proof.
  unfold parseInt. generalize (list_ascii_of_string digits). intros l.
  assert (∀ n, 0 ≤ n → Forall (λ c, is_digit c = true) l →
            0 ≤ foldl (λ n c, 10 * n + (Z.of_nat (nat_of_ascii c) - 48)) n l) as H.
  { induction l as [|c l IH]; intros n Hn Hl; simpl; [done|].
    inversion Hl as [|? ? Hc Hl']; subst. apply IH; [|done].
    unfold is_digit in Hc. apply andb_true_iff in Hc as [Hlo _].
    apply Nat.leb_le in Hlo. lia. }
  by apply H.
Qed.

Lemma match_arrow_groups token host port :
  match_arrow token = Some (host, port) →
  host ≠ "" ∧ indexOf ":"%char host = None ∧ 0 ≤ parseInt port.
Proof.
  assert (∀ rest, match_after_arrow rest = Some (host, port) →
            host ≠ "" ∧ indexOf ":"%char host = None ∧ 0 ≤ parseInt port) as Hafter.
  { intros rest. unfold match_after_arrow.
    pose proof (span_no_colon rest) as Hcolon.
    destruct (span (λ c, negb (Ascii.eqb c ":"%char)) rest) as [h r]. simpl in *.
    destruct (String.eqb_spec h ""); [done|].
    destruct r as [|c after_colon]; [done|].
    pose proof (span_digits after_colon) as Hdigits.
    destruct (span is_digit after_colon) as [d r']. simpl in *.
    destruct (String.eqb d ""); [done|]. intros [= <- <-].
    split; [done|]. split; [done|]. by apply parseInt_digits_nonneg. }
  induction token as [|c token IH]; [done|].
  cbn [match_arrow]. destruct (startsWith "->" (String c token)); [|done].
  destruct (match_after_arrow (slice 2 (String c token))) as [groups|] eqn:Hm; [|done].
  intros [= ->]. by eapply Hafter.
Qed.

Lemma is_local_false host :
  is_local host = false →
  includes "localhost" host = false ∧ includes "127.0.0.1" host = false.
Proof.
  unfold is_local. intros H. apply orb_false_iff in H as [H _].
  by apply orb_false_iff in H.
Qed.

Lemma scan_from_line all lines connections :
  (∀ line, line ∈ lines → line ∈ all) →
  Forall (from_line all) connections →
  Forall (from_line all) (scan lines connections).
Proof.
  revert connections. induction lines as [|line rest IH]; intros connections Hsub Hacc;
    simpl; [done|].
  assert (∀ l, l ∈ rest → l ∈ all) as Hrest by (intros l Hl; apply Hsub; by right).
  destruct (includes "ESTABLISHED" line) eqn:Hest; simpl; [|by apply IH].
  destruct (List.find (λ token, includes "->" token) (split_spaces false line))
    as [token|] eqn:Hfind; simpl; [|by apply IH].
  destruct (match_arrow token) as [[host port]|] eqn:Hmatch; [|by apply IH].
  destruct (is_local host) eqn:Hlocal; [by apply IH|].
  assert (Forall (from_line all)
            (connections ++ [{| c_process := default "" (head (split_spaces false line));
                                c_host := host; c_port := parseInt port |}])) as Hpush.
  { apply Forall_app. split; [done|]. constructor; [|constructor].
    exists line, token, port. simpl. repeat split; try done.
    - apply Hsub. left.
    - apply find_some in Hfind as [Hin _]. by apply list_elem_of_In. }
  case_bool_decide; [done | by apply IH].
Qed.

Lemma scan_length lines connections :
  (length connections < 20)%nat → (length (scan lines connections) ≤ 20)%nat.
Proof.
  revert connections. induction lines as [|line rest IH]; intros connections Hlen;
    simpl; [lia|].
  destruct (negb (includes "ESTABLISHED" line)); [by apply IH|].
  destruct (match_arrow _) as [[host port]|]; [|by apply IH].
  destruct (is_local host); [by apply IH|].
  case_bool_decide as Hfull.
  - rewrite length_app in *. simpl in *. lia.
  - apply IH. lia.
Qed.

Lemma Map_set_elem key value m k v :
  (k, v) ∈ Map_set key value m → (k, v) = (key, value) ∨ (k, v) ∈ m.
Proof.
  induction m as [|[k' v'] m IH]; simpl.
  - intros ?%list_elem_of_singleton. by left.
  - destruct (String.eqb k' key).
    + intros [->|?]%elem_of_cons; [by left | right; by right].
    + intros [->|Hin]%elem_of_cons; [right; left|].
      destruct (IH Hin); [by left | right; by right].
Qed.

Lemma Map_set_keys key value m :
  (Map_set key value m).*1 = if bool_decide (key ∈ m.*1) then m.*1 else m.*1 ++ [key].
Proof.
  induction m as [|[k' v'] m IH]; [done|]. cbn [Map_set].
  destruct (String.eqb_spec k' key) as [->|Hne]; rewrite !fmap_cons; cbn [fst].
  - rewrite bool_decide_eq_true_2; [done | left].
  - rewrite IH. case_bool_decide as Hin.
    + rewrite bool_decide_eq_true_2; [done | by right].
    + rewrite bool_decide_eq_false_2; [done|].
      intros [?|?]%elem_of_cons; [congruence | done].
Qed.

Lemma unique_spec connections :
  NoDup (connection_key <$> unique connections)
  ∧ ∀ c, c ∈ unique connections → c ∈ connections.
Proof.
  unfold unique.
  assert (∀ m seen,
    NoDup m.*1 → (∀ k v, (k, v) ∈ m → k = connection_key v ∧ v ∈ seen) →
    let m' := foldl (λ m c, Map_set (connection_key c) c m) m connections in
    NoDup m'.*1 ∧ ∀ k v, (k, v) ∈ m' → k = connection_key v ∧ v ∈ seen ++ connections) as H.
  { induction connections as [|c rest IH]; intros m seen Hnd Hm; simpl.
    - split; [done|]. intros k v Hkv. rewrite app_nil_r. by apply Hm.
    - destruct (IH (Map_set (connection_key c) c m) (seen ++ [c])) as [Hnd' Hm'].
      + rewrite Map_set_keys. case_bool_decide; [done|].
        apply NoDup_app. split; [done|]. split; [|apply NoDup_singleton].
        intros k Hk ->%list_elem_of_singleton. done.
      + intros k v [[= -> ->]|Hin]%Map_set_elem.
        * split; [done|]. apply elem_of_app. right. left.
        * destruct (Hm k v Hin) as [? Hv]. split; [done|]. apply elem_of_app. by left.
      + split; [done|]. intros k v Hkv. destruct (Hm' k v Hkv) as [? Hv].
        split; [done|]. by rewrite <- app_assoc in Hv. }
  destruct (H [] []) as [Hnd Hm]; [constructor | by intros k v ?%elem_of_nil |].
  simpl in *. set (m := foldl _ [] connections) in *. split.
  - replace (connection_key <$> m.*2) with m.*1; [done|].
    clear Hnd. induction m as [|[k v] m IH]; simpl; [done|]. f_equal.
    + apply (Hm k v). left.
    + apply IH. intros k' v' Hin. apply Hm. by right.
  - intros c Hc. apply list_elem_of_fmap in Hc as ([k v] & -> & Hin).
    by apply (Hm k v).
Qed.

Lemma getConnections_from_lines stdout :
  Forall (from_line (split_char "010"%char (trim stdout)))
    (getConnections_loader (Returns stdout)).
Proof.
  unfold getConnections_loader.
  set (lines := filter _ _).
  assert (Forall (from_line (split_char "010"%char (trim stdout))) (scan lines [])) as Hscan.
  { apply scan_from_line; [|constructor].
    intros line Hline. unfold lines in Hline. by apply list_elem_of_filter in Hline as [_ ?]. }
  rewrite Forall_forall in Hscan. apply Forall_forall. intros c Hc.
  apply Hscan, unique_spec. by apply (subseteq_take 10).
Qed.

(** At most ten connections are reported, no two for the same process and
    host; a reported host is not empty, holds no colon (an IPv6 peer is
    never reported under its address) and contains neither [localhost]
    nor [127.0.0.1]; a port is not negative; and a failed [lsof] gives no
    connections instead of an error. *)
Theorem getConnections_bounded_and_distinct (lsof : result string) :
  (length (getConnections_loader lsof) ≤ 10)%nat
  ∧ NoDup (connection_key <$> getConnections_loader lsof)
  ∧ (∀ c, c ∈ getConnections_loader lsof →
       c_host c ≠ "" ∧ indexOf ":"%char (c_host c) = None
       ∧ includes "localhost" (c_host c) = false
       ∧ includes "127.0.0.1" (c_host c) = false
       ∧ 0 ≤ c_port c)
  ∧ (∀ e, lsof = Throws e → getConnections_loader lsof = []).
Proof.
  split; [|split; [|split]].
  - destruct lsof; simpl; [|lia]. rewrite length_take. lia.
  - destruct lsof as [stdout|]; simpl; [|constructor].
    rewrite fmap_take. eapply sublist_NoDup; [apply unique_spec | apply sublist_take].
  - destruct lsof as [stdout|]; [|by intros c ?%elem_of_nil].
    intros c Hc. pose proof (getConnections_from_lines stdout) as Hall.
    rewrite Forall_forall in Hall.
    destruct (Hall c Hc) as (line & token & port & _ & _ & _ & _ & Hm & -> & Hlocal).
    destruct (match_arrow_groups _ _ _ Hm) as (? & ? & ?).
    destruct (is_local_false _ Hlocal). done.
  - by intros e ->.
Qed.

(** Every reported connection comes from a line of the output that
    contains [ESTABLISHED]: its process is the first field of that line,
    its host and port are what the pattern matched in one of the fields. *)
Theorem getConnections_from_established_lines (stdout : string) (c : Connection) :
  c ∈ getConnections_loader (Returns stdout) →
  ∃ line token port,
    line ∈ split_char "010"%char (trim stdout)
    ∧ includes "ESTABLISHED" line = true
    ∧ c_process c = default "" (head (split_spaces false line))
    ∧ token ∈ split_spaces false line
    ∧ match_arrow token = Some (c_host c, port)
    ∧ c_port c = parseInt port.
Proof.
  intros Hc. pose proof (getConnections_from_lines stdout) as Hall.
  rewrite Forall_forall in Hall.
  destruct (Hall c Hc) as (line & token & port & ? & ? & ? & ? & ? & ? & _).
  exists line, token, port. done.
Qed.

Lemma getConnections_from_established_lines_witness :
  ∃ line token port,
    line ∈ split_char "010"%char (trim lsof_output)
    ∧ includes "ESTABLISHED" line = true
    ∧ "node" = default "" (head (split_spaces false line))
    ∧ token ∈ split_spaces false line
    ∧ match_arrow token = Some ("17.42.251.72", port)
    ∧ 443 = parseInt port.
Proof.
  apply (getConnections_from_established_lines lsof_output
           {| c_process := "node"; c_host := "17.42.251.72"; c_port := 443 |}).
  vm_compute. left.
Defined.

(** The sample output: the two connections of [node] to one host count
    once, with the port seen last; the local one and the listening socket
    are left out; the IPv6 peer is reported as the text up to its first
    colon. *)
Example getConnections_sample :
  getConnections_loader (Returns lsof_output)
  = [{| c_process := "node"; c_host := "17.42.251.72"; c_port := 443 |};
     {| c_process := "curl"; c_host := "[2001"; c_port := 1 |}].
Proof. by vm_compute. Qed.

(** *** [getHealthStatus] *)

(** The health loader returns, with status [ok] exactly when the
    database, metrics-agent and CLI checks all report [ok]; a sample age
    is reported only with data and is never negative, and without data it
    is [null]. *)
Theorem health_ok_iff_every_check_ok (w : World) :
  ∃ health,
    getHealthStatus_loader w = Returns health
    ∧ (he_status health = HealthOk ↔
       db_ok (he_database health) = true
       ∧ glances_ok (he_glances health) = true
       ∧ openclaw_ok (he_openclaw health) = true)
    ∧ (∀ latencyMs hasData age,
         he_database health = DbOk latencyMs hasData (Some age) →
         0 ≤ age ∧ hasData = true)
    ∧ (∀ latencyMs age, he_database health = DbOk latencyMs false age → age = None).
Proof.
  eexists. split; [reflexivity|]. cbn [he_status he_database he_glances he_openclaw].
  split; [|split].
  - unfold database_check, glances_check, openclaw_check, queryDb.
    destruct (sqlite3_metrics_latest w) as [rows|e]; simpl;
      [|destruct (includes "no such table: metrics" (formatError e)); simpl];
      destruct (glances_cpu w); simpl;
      destruct (Boolean_path (openclawPath w)); simpl;
      try destruct (openClawStatusJson w); simpl; naive_solver.
  - intros latencyMs hasData age. unfold database_check, queryDb.
    destruct (sqlite3_metrics_latest w) as [rows|e]; simpl;
      [|by destruct (includes "no such table: metrics" (formatError e))].
    destruct rows as [|[ts|] rows]; simpl; [done | | done].
    destruct (ts =? 0); [done|]. intros [= <- <- <-]. split; [lia|done].
  - intros latencyMs age. unfold database_check, queryDb.
    destruct (sqlite3_metrics_latest w) as [rows|e]; simpl;
      [|by destruct (includes "no such table: metrics" (formatError e))].
    destruct rows as [|r rows]; simpl; [by intros [= <- <-] | done].
Qed.

(** *** [getProcessInsights] *)

Lemma sort_insert_Permutation {A} (before : A → A → bool) x l :
  sort_insert before x l ≡ₚ x :: l.
Proof.
  induction l as [|y l IH]; simpl; [done|].
  destruct (before y x); [|done]. rewrite IH. apply Permutation_swap.
Qed.

Lemma Array_sort_Permutation {A} (before : A → A → bool) l :
  Array_sort before l ≡ₚ l.
Proof.
  induction l as [|x l IH]; simpl; [done|].
  rewrite sort_insert_Permutation. by constructor.
Qed.

Lemma Array_sort_length {A} (before : A → A → bool) (l : list A) :
  length (Array_sort before l) = length l.
Proof. by rewrite Array_sort_Permutation. Qed.

Lemma collect_elem seen procs c :
  c ∈ collect seen procs → ∃ p, p ∈ procs ∧ c = proc_of p.
Proof.
  revert seen. induction procs as [|p rest IH]; intros seen; simpl.
  - by intros ?%elem_of_nil.
  - case_bool_decide as Hseen.
    + intros (q & ? & ?)%IH. exists q. split; [by right | done].
    + intros [->|(q & ? & ?)%IH]%elem_of_cons.
      * exists p. split; [left | done].
      * exists q. split; [by right | done].
Qed.

Lemma collect_complete seen procs p :
  p ∈ procs →
  or_str (rp_name p) "unknown" ∈ seen
  ∨ or_str (rp_name p) "unknown" ∈ p_name <$> collect seen procs.
Proof.
  revert seen. induction procs as [|q rest IH]; intros seen; simpl.
  - by intros ?%elem_of_nil.
  - intros [->|Hin]%elem_of_cons.
    + case_bool_decide as Hseen; [by left|]. right. simpl. left.
    + case_bool_decide as Hseen; [by apply IH|].
      destruct (IH ({[or_str (rp_name q) "unknown"]} ∪ seen) Hin) as [Hs|Hc].
      * apply elem_of_union in Hs as [->%elem_of_singleton|Hs]; [|by left].
        right. simpl. left.
      * right. simpl. by right.
Qed.

(** Each current process is a process of the agent's list, with its name
    defaulted to [unknown], its CPU defaulted to [0] and its RSS turned
    into megabytes; and when the list has at most ten processes, no name
    in it is left out. *)
Theorem currentProcs_from_list (procs : list RawProc) :
  (∀ c, c ∈ currentProcs (Returns procs) →
     ∃ p, p ∈ procs
          ∧ c = {| p_name := or_str (rp_name p) "unknown";
                   p_cpu := or_float (rp_cpu_percent p) 0;
                   p_ram_mb := (or_float (rp_memory_info_rss p) 0 / (1024 * 1024))%float |})
  ∧ ((length procs ≤ 10)%nat →
     ∀ p, p ∈ procs →
       or_str (rp_name p) "unknown" ∈ p_name <$> currentProcs (Returns procs)).
Proof.
  unfold currentProcs. split.
  - intros c (p & Hp & ->)%collect_elem. exists p. split; [|done].
    apply (subseteq_take 10) in Hp. by rewrite Array_sort_Permutation in Hp.
  - intros Hlen p Hp.
    rewrite take_ge by (rewrite Array_sort_length; lia).
    destruct (collect_complete ∅ (Array_sort cpu_before procs) p) as [Hs|Hc]; [|set_solver|done].
    by rewrite Array_sort_Permutation.
Qed.

(** Without history (the store has no averages, or its query fails) no
    process is flagged; the averages of a process are [null], unless its
    name is that of a member of [Object.prototype] ([constructor],
    [toString], ...): [avgMap] being a plain object, the lookup then finds
    the inherited member and both averages are [NaN].  With the metrics
    agent unreachable there are no processes and no anomalies, whatever
    the store holds. *)
Theorem insights_without_history_or_agent (w : World) :
  ∃ insights,
    getProcessInsights_loader w = Returns insights
    ∧ (queryDb (sqlite3_process_avg_since w (Date_now w / 1000 - 86400)) false = Returns [] →
       in_anomalies insights = [] ∧ in_hasHistory insights = false
       ∧ ∀ i, i ∈ in_processes insights →
              i_anomaly i = None
              ∧ (i_name i ∉ Object_prototype → i_avg_cpu i = None ∧ i_avg_ram i = None)
              ∧ (i_name i ∈ Object_prototype →
                 i_avg_cpu i = Some nan ∧ i_avg_ram i = Some nan))
    ∧ (∀ e, glances_processlist w = Throws e →
         in_processes insights = [] ∧ in_anomalies insights = []).
Proof.
  unfold getProcessInsights_loader.
  destruct (queryDb (sqlite3_process_avg_since w _) false) as [rows|e] eqn:Hq.
  2:{ unfold queryDb in Hq. by destruct (sqlite3_process_avg_since w _). }
  simpl. eexists. split; [reflexivity|]. split.
  - intros [= ->]. simpl.
    assert (∀ i, i ∈ insights_of (currentProcs (glances_processlist w)) [] →
              i_anomaly i = None
              ∧ (i_name i ∉ Object_prototype → i_avg_cpu i = None ∧ i_avg_ram i = None)
              ∧ (i_name i ∈ Object_prototype →
                 i_avg_cpu i = Some nan ∧ i_avg_ram i = Some nan)) as Hnone.
    { intros i (proc & -> & _)%list_elem_of_fmap.
      unfold insight_of, lookup_avgMap, avgMap.
      cbn [foldl i_anomaly i_name i_avg_cpu i_avg_ram]. rewrite !lookup_empty.
      case_bool_decide as Hproto; cbn [truthy hist_cpu hist_ram anomaly_of];
        (split; [reflexivity|]); split; intros Hname; done. }
    split; [|split; [done|]].
    + destruct (filter _ _) as [|i l] eqn:Hf; [done|]. exfalso.
      assert (i ∈ filter (λ i, is_Some (i_anomaly i))
                    (insights_of (currentProcs (glances_processlist w)) [])) as Hi
        by (rewrite Hf; left).
      apply list_elem_of_filter in Hi as [[a Ha] Hi].
      destruct (Hnone i Hi) as (Hn & _). congruence.
    + intros i Hi. apply Hnone. by apply (subseteq_take 8).
  - intros e ->. done.
Qed.

(** A process named [constructor], with no history at all: the insight
    carries [NaN] averages and no anomaly. *)
Example insight_of_inherited_name :
  insight_of (avgMap []) {| p_name := "constructor"; p_cpu := 10; p_ram_mb := 300 |}
  = {| i_name := "constructor"; i_cpu := 10; i_ram_mb := 300;
       i_avg_cpu := Some nan; i_avg_ram := Some nan; i_anomaly := None |}.
Proof. reflexivity. Qed.

End MoreHandlerFacts.

(** ** More on the front door *)

Module ServerMoreFacts.
Import Js Handlers Server Samples ServerFacts.

Section FrontDoorFacts.
Variable URL_hostname : string → option string.
Variable URL_parse : string → option (string * option string).

(** The [Access-Control-Allow-Origin] header is sent, echoing the origin,
    exactly when the [Origin] header is present, not empty and parses to
    a hostname that is one of [localhost], [127.0.0.1], [::1], [[::1]] or
    is the text of the [Host] header before its first colon, that text
    not being empty; the path and the method play no part. *)
Theorem allow_origin_header_iff (req : Request) (a : Awaited) (origin : string) :
  header "Access-Control-Allow-Origin" (server URL_hostname req a) = Some origin ↔
  headers_origin req = Some origin ∧ origin ≠ "" ∧
  ∃ hostname,
    URL_hostname origin = Some hostname
    ∧ (hostname ∈ ["localhost"; "127.0.0.1"; "::1"; "[::1]"]
       ∨ (split_colon_0 (or_str (headers_host req) "") ≠ ""
          ∧ hostname = split_colon_0 (or_str (headers_host req) ""))).
Proof. rewrite server_allow_origin_header. apply getAllowedOrigin_spec. Qed.

Lemma route_status req a statusCode payload :
  route req a = Returns (statusCode, payload) →
  (statusCode = 200 ∨ statusCode = 404) ∧ payload ≠ NoBody.
Proof.
  unfold route. cbv zeta.
  repeat (destruct (_ || _);
          [ match goal with
            | |- context [mbind _ ?r] => destruct r
            | _ => idtac
            end; intros Hret; inversion Hret; split; [by left | done] |]).
  intros Hret; inversion Hret; split; [by right | done].
Qed.

Lemma status_listed req a :
  statusCode (server URL_hostname req a) ∈ [200; 204; 403; 404; 405; 500; 502].
Proof.
  unfold server. destruct (String.eqb (method req) "OPTIONS").
  { cbn [statusCode]. destruct (getAllowedOrigin URL_hostname req); set_solver. }
  destruct (negb (String.eqb (method req) "GET")).
  { cbn [statusCode sendJson]. set_solver. }
  destruct (or_null _ _) as [endpoint|].
  - unfold proxyGlancesEndpoint.
    destruct (bool_decide _); [|cbn [statusCode sendJson]; set_solver].
    destruct (aw_glances a endpoint) as [response|]; [|cbn [statusCode sendJson]; set_solver].
    destruct (gr_ok response); [|cbn [statusCode sendJson]; set_solver].
    destruct (gr_text response); cbn [statusCode sendJson]; set_solver.
  - destruct (route req a) as [[code payload]|] eqn:Hroute;
      [|cbn [statusCode sendJson]; set_solver].
    apply route_status in Hroute as [[-> | ->] _]; cbn [statusCode sendJson]; set_solver.
Qed.

(** The headers of a response: the CORS headers, then a content type
    unless the request is [OPTIONS]. *)
Lemma server_content_type (req : Request) (a : Awaited) :
  ∃ tl,
    headers (server URL_hostname req a)
    = match getAllowedOrigin URL_hostname req with
      | Some origin => [("Access-Control-Allow-Origin", origin); ("Vary", "Origin")]
      | None => []
      end
      ++ [("Access-Control-Allow-Methods", "GET, OPTIONS");
          ("Access-Control-Allow-Headers", "Content-Type")] ++ tl
    ∧ (if String.eqb (method req) "OPTIONS" then tl = []
       else ∃ v, tl = [("Content-Type", v)]).
Proof.
  unfold server. destruct (String.eqb (method req) "OPTIONS").
  { exists []. by rewrite app_nil_r. }
  unfold proxyGlancesEndpoint, sendJson.
  repeat case_match; cbn [headers]; rewrite <- ?app_assoc; eauto.
Qed.

Lemma server_uniform (req : Request) (a : Awaited) :
  statusCode (server URL_hostname req a) ∈ [200; 204; 403; 404; 405; 500; 502]
  ∧ header "Access-Control-Allow-Methods" (server URL_hostname req a) = Some "GET, OPTIONS"
  ∧ header "Access-Control-Allow-Headers" (server URL_hostname req a) = Some "Content-Type"
  ∧ (header "Vary" (server URL_hostname req a) = Some "Origin"
     ↔ is_Some (header "Access-Control-Allow-Origin" (server URL_hostname req a)))
  ∧ (is_Some (header "Content-Type" (server URL_hostname req a)) ↔ method req ≠ "OPTIONS")
  ∧ (method req = "OPTIONS" → body (server URL_hostname req a) = NoBody).
Proof.
  split; [|split; [|split; [|split; [|split]]]].
  - apply status_listed.
  - destruct (server_headers URL_hostname req a) as (tl & Hhs & Htl). unfold header.
    rewrite Hhs. destruct (getAllowedOrigin URL_hostname req); reflexivity.
  - destruct (server_headers URL_hostname req a) as (tl & Hhs & Htl). unfold header.
    rewrite Hhs. destruct (getAllowedOrigin URL_hostname req); reflexivity.
  - rewrite server_allow_origin_header.
    destruct (server_headers URL_hostname req a) as (tl & Hhs & Htl). unfold header.
    rewrite Hhs. destruct (getAllowedOrigin URL_hostname req).
    + simpl. split; [eauto | done].
    + destruct Htl as [-> | [v ->]]; simpl; (split; [done | by intros [? ?]]).
  - destruct (server_content_type req a) as (tl & Hhs & Htl). unfold header. rewrite Hhs.
    destruct (String.eqb_spec (method req) "OPTIONS") as [Hm|Hm].
    + subst tl. destruct (getAllowedOrigin URL_hostname req); simpl;
        (split; [by intros [? ?] | done]).
    + destruct Htl as [v ->]. destruct (getAllowedOrigin URL_hostname req); simpl;
        (split; [done | eauto]).
  - intros Hm. unfold server. by rewrite Hm.
Qed.

(** Every response the listener gives has one of seven status codes and
    names the allowed methods and headers; [Vary: Origin] goes with the
    allowed origin and only with it; a content type is sent with every
    response but the answer to [OPTIONS], which has no body. *)
Theorem responses_are_uniform (req : IncomingMessage) (a : Awaited) (res : Response) :
  listener URL_hostname URL_parse req a = Some res →
  statusCode res ∈ [200; 204; 403; 404; 405; 500; 502]
  ∧ header "Access-Control-Allow-Methods" res = Some "GET, OPTIONS"
  ∧ header "Access-Control-Allow-Headers" res = Some "Content-Type"
  ∧ (header "Vary" res = Some "Origin" ↔ is_Some (header "Access-Control-Allow-Origin" res))
  ∧ (is_Some (header "Content-Type" res) ↔ im_method req ≠ "OPTIONS")
  ∧ (im_method req = "OPTIONS" → body res = NoBody).
Proof.
  unfold listener. destruct (_ || _).
  - intros [= <-].
    exact (server_uniform
             {| method := im_method req; url_pathname := ""; url_range := None;
                headers_origin := im_headers_origin req;
                headers_host := im_headers_host req |} a).
  - destruct (URL_parse (im_url req)) as [url|]; [|done].
    intros [= <-].
    exact (server_uniform
             {| method := im_method req; url_pathname := url.1; url_range := url.2;
                headers_origin := im_headers_origin req;
                headers_host := im_headers_host req |} a).
Qed.

(** Each of the nine resources answers at its bare path and at the same
    path under [/api] in the same way. *)
Theorem api_prefix_is_an_alias (req : Request) (a : Awaited) (resource : string) :
  resource ∈ ["/openclaw"; "/openclaw/history"; "/history"; "/cron"; "/tokens";
              "/connections"; "/quote"; "/processes"; "/health"] →
  server URL_hostname
    {| method := method req; url_pathname := String.append "/api" resource;
       url_range := url_range req; headers_origin := headers_origin req;
       headers_host := headers_host req |} a
  = server URL_hostname
      {| method := method req; url_pathname := resource;
         url_range := url_range req; headers_origin := headers_origin req;
         headers_host := headers_host req |} a.
Proof.
  intros Hres.
  repeat (apply elem_of_cons in Hres as [->|Hres]; [reflexivity|]).
  by apply elem_of_nil in Hres.
Qed.

Lemma server_get (req : Request) (a : Awaited) :
  method req = "GET" →
  server URL_hostname req a
  = let hs :=
      match getAllowedOrigin URL_hostname req with
      | Some origin => [("Access-Control-Allow-Origin", origin); ("Vary", "Origin")]
      | None => []
      end
      ++ [("Access-Control-Allow-Methods", "GET, OPTIONS");
          ("Access-Control-Allow-Headers", "Content-Type")] in
    match or_null (String.eqb "") (glancesPath (url_pathname req)) with
    | Some endpoint => proxyGlancesEndpoint hs a endpoint
    | None =>
        match route req a with
        | Returns (statusCode, payload) => sendJson hs statusCode payload
        | Throws e =>
            sendJson hs 500 (ErrorBody "Internal server error" (Some (formatError e)))
        end
    end.
Proof. intros Hget. unfold server. rewrite Hget. reflexivity. Qed.

Lemma or_null_name name : name ≠ "" → or_null (String.eqb "") (Some name) = Some name.
Proof. by destruct name. Qed.

Lemma glancesPath_prefixed pre name :
  pre ∈ ["/api/glances/"; "/glances/"] → glancesPath (String.append pre name) = Some name.
Proof.
  intros Hpre. repeat (apply elem_of_cons in Hpre as [->|Hpre]; [by destruct name|]).
  by apply elem_of_nil in Hpre.
Qed.

(** A name outside the allow-list is not relayed: under either prefix a
    [GET] for it is answered 404 whatever the metrics agent would say. *)
Theorem glances_proxy_refuses_unlisted (req : Request) (a a' : Awaited) (pre name : string) :
  method req = "GET" →
  pre ∈ ["/api/glances/"; "/glances/"] →
  name ≠ "" →
  name ∉ ["cpu"; "mem"; "fs"; "load"; "network"; "processlist"; "uptime"] →
  statusCode (server URL_hostname
                {| method := method req; url_pathname := String.append pre name;
                   url_range := url_range req; headers_origin := headers_origin req;
                   headers_host := headers_host req |} a) = 404
  ∧ body (server URL_hostname
            {| method := method req; url_pathname := String.append pre name;
               url_range := url_range req; headers_origin := headers_origin req;
               headers_host := headers_host req |} a)
    = ErrorBody "Glances endpoint not found" None
  ∧ server URL_hostname
      {| method := method req; url_pathname := String.append pre name;
         url_range := url_range req; headers_origin := headers_origin req;
         headers_host := headers_host req |} a
    = server URL_hostname
        {| method := method req; url_pathname := String.append pre name;
           url_range := url_range req; headers_origin := headers_origin req;
           headers_host := headers_host req |} a'.
Proof.
  intros Hget Hpre Hname Hlisted. rewrite !server_get by done. cbv zeta.
  cbn [url_pathname]. rewrite (glancesPath_prefixed pre name Hpre), or_null_name by done.
  unfold proxyGlancesEndpoint, ALLOWED_GLANCES_ENDPOINTS.
  rewrite bool_decide_eq_false_2 by done. done.
Qed.

(** A listed name is relayed: 200 with the agent's body as it is and the
    agent's content type (JSON when it names none) if the agent answered
    with success and its body could be read, and 502 in every other case. *)
Theorem glances_proxy_relays_listed (req : Request) (a : Awaited) (pre name : string) :
  method req = "GET" →
  pre ∈ ["/api/glances/"; "/glances/"] →
  name ∈ ["cpu"; "mem"; "fs"; "load"; "network"; "processlist"; "uptime"] →
  let res := server URL_hostname
               {| method := method req; url_pathname := String.append pre name;
                  url_range := url_range req; headers_origin := headers_origin req;
                  headers_host := headers_host req |} a in
  (∀ response text,
     aw_glances a name = Returns response → gr_ok response = true →
     gr_text response = Returns text →
     statusCode res = 200 ∧ body res = Verbatim text
     ∧ header "Content-Type" res
       = Some (or_str (gr_contentType response) "application/json; charset=utf-8"))
  ∧ (statusCode res = 200 ∨ statusCode res = 502)
  ∧ (statusCode res = 200 →
     ∃ response text, aw_glances a name = Returns response ∧ gr_ok response = true
                      ∧ gr_text response = Returns text).
Proof.
  intros Hget Hpre Hname res.
  assert (name ≠ "") as Hne.
  { intros ->. repeat (apply elem_of_cons in Hname as [Hname|Hname]; [done|]).
    by apply elem_of_nil in Hname. }
  assert (res = proxyGlancesEndpoint
                  (match getAllowedOrigin URL_hostname
                           {| method := method req; url_pathname := String.append pre name;
                              url_range := url_range req;
                              headers_origin := headers_origin req;
                              headers_host := headers_host req |} with
                   | Some origin => [("Access-Control-Allow-Origin", origin); ("Vary", "Origin")]
                   | None => []
                   end ++ [("Access-Control-Allow-Methods", "GET, OPTIONS");
                           ("Access-Control-Allow-Headers", "Content-Type")])
                  a name) as ->.
  { unfold res. rewrite server_get by done. cbv zeta. cbn [url_pathname].
    by rewrite (glancesPath_prefixed pre name Hpre), or_null_name. }
  unfold proxyGlancesEndpoint, ALLOWED_GLANCES_ENDPOINTS.
  rewrite bool_decide_eq_true_2 by done.
  split; [|split].
  - intros response text -> -> ->. cbn [statusCode body]. split; [done|]. split; [done|].
    unfold header. cbn [headers].
    destruct (getAllowedOrigin URL_hostname _); reflexivity.
  - destruct (aw_glances a name) as [response|]; [|by right].
    destruct (gr_ok response); [|by right]. destruct (gr_text response); [by left | by right].
  - destruct (aw_glances a name) as [response|]; [|done].
    destruct (gr_ok response) eqn:Hok; [|done].
    destruct (gr_text response) eqn:Htext; [|done]. eauto.
Qed.

Lemma server_unknown_path (req : Request) (a : Awaited) :
  method req = "GET" →
  or_null (String.eqb "") (glancesPath (url_pathname req)) = None →
  url_pathname req ∉ ["/openclaw"; "/api/openclaw"; "/openclaw/history";
                      "/api/openclaw/history"; "/history"; "/api/history"; "/cron";
                      "/api/cron"; "/tokens"; "/api/tokens"; "/connections";
                      "/api/connections"; "/quote"; "/api/quote"; "/processes";
                      "/api/processes"; "/health"; "/api/health"] →
  statusCode (server URL_hostname req a) = 404
  ∧ body (server URL_hostname req a) = ErrorBody "Not found" None.
Proof.
  intros Hget Hglances Hpath. rewrite server_get by done. cbv zeta. rewrite Hglances.
  assert (∀ p, p ∈ ["/openclaw"; "/api/openclaw"; "/openclaw/history";
                    "/api/openclaw/history"; "/history"; "/api/history"; "/cron";
                    "/api/cron"; "/tokens"; "/api/tokens"; "/connections";
                    "/api/connections"; "/quote"; "/api/quote"; "/processes";
                    "/api/processes"; "/health"; "/api/health"] →
               String.eqb (url_pathname req) p = false) as Hno.
  { intros p Hp. apply String.eqb_neq. intros Heq. apply Hpath. by rewrite Heq. }
  unfold route. cbv zeta.
  rewrite !Hno by (repeat constructor). done.
Qed.

(** A request other than [GET] is answered from its method and headers
    alone: the listener has not parsed its target. *)
Lemma server_before_parse (req req' : Request) (a : Awaited) :
  method req ≠ "GET" →
  method req' = method req → headers_origin req' = headers_origin req →
  headers_host req' = headers_host req →
  server URL_hostname req' a = server URL_hostname req a.
Proof.
  intros Hget Hm Ho Hh. unfold server, getAllowedOrigin. rewrite Hm, Ho, Hh.
  destruct (String.eqb (method req) "OPTIONS"); [done|].
  apply String.eqb_neq in Hget. by rewrite Hget.
Qed.

(** A [GET] is answered exactly when its target parses.  If the parsed
    path is no resource and names no endpoint of the metrics agent (a
    resource path with a trailing slash and the bare prefix
    [/api/glances/] are such paths), the answer is 404 with
    [{ error: 'Not found' }]; if the target does not parse, the listener
    fails before it writes anything and the request gets no response. *)
Theorem unknown_path_not_found (req : IncomingMessage) (a : Awaited) :
  im_method req = "GET" →
  (is_Some (listener URL_hostname URL_parse req a) ↔ is_Some (URL_parse (im_url req)))
  ∧ (URL_parse (im_url req) = None → listener URL_hostname URL_parse req a = None)
  ∧ (∀ pathname range,
       URL_parse (im_url req) = Some (pathname, range) →
       or_null (String.eqb "") (glancesPath pathname) = None →
       pathname ∉ ["/openclaw"; "/api/openclaw"; "/openclaw/history";
                   "/api/openclaw/history"; "/history"; "/api/history"; "/cron";
                   "/api/cron"; "/tokens"; "/api/tokens"; "/connections";
                   "/api/connections"; "/quote"; "/api/quote"; "/processes";
                   "/api/processes"; "/health"; "/api/health"] →
       ∃ res, listener URL_hostname URL_parse req a = Some res
              ∧ statusCode res = 404
              ∧ body res = ErrorBody "Not found" None).
Proof.
  intros Hget. unfold listener. rewrite Hget. cbn [String.eqb Ascii.eqb Bool.eqb negb orb].
  cbv iota. split; [|split].
  - destruct (URL_parse (im_url req)); simpl; split; intros [? ?]; eauto; done.
  - by intros ->.
  - intros pathname range -> Hglances Hpath. simpl. eexists. split; [reflexivity|].
    by apply server_unknown_path.
Qed.

End FrontDoorFacts.

Lemma glances_proxy_refuses_unlisted_witness :
  statusCode (server origin_hostname (request "GET" "/api/glances/quicklook" None None) quiet)
  = 404.
Proof.
  apply (glances_proxy_refuses_unlisted origin_hostname
           (request "GET" "/" None None) quiet quiet "/api/glances/" "quicklook");
    [done | set_solver | done | set_solver].
Defined.

Lemma glances_proxy_relays_listed_witness :
  statusCode (server origin_hostname (request "GET" "/glances/cpu" None None) quiet) = 200
  ∨ statusCode (server origin_hostname (request "GET" "/glances/cpu" None None) quiet) = 502.
Proof.
  apply (glances_proxy_relays_listed origin_hostname
           (request "GET" "/" None None) quiet "/glances/" "cpu");
    [done | set_solver | set_solver].
Defined.

Lemma api_prefix_is_an_alias_witness :
  server origin_hostname (request "GET" "/api/cron" None None) quiet
  = server origin_hostname (request "GET" "/cron" None None) quiet.
Proof.
  apply (api_prefix_is_an_alias origin_hostname (request "GET" "/" None None) quiet "/cron").
  set_solver.
Defined.

Lemma unknown_path_not_found_witness :
  listener origin_hostname target_parse (incoming "GET" "//") quiet = None
  ∧ ∃ res, listener origin_hostname target_parse (incoming "GET" "/api/health/") quiet
           = Some res
           ∧ statusCode res = 404
           ∧ body res = ErrorBody "Not found" None.
Proof.
  split.
  - apply (unknown_path_not_found origin_hostname target_parse (incoming "GET" "//") quiet);
      reflexivity.
  - destruct (unknown_path_not_found origin_hostname target_parse
                (incoming "GET" "/api/health/") quiet eq_refl) as (_ & _ & Hfound).
    apply (Hfound "/api/health/" None); [reflexivity | reflexivity |].
    intros H. repeat (apply elem_of_cons in H as [H|H]; [discriminate H|]).
    by apply elem_of_nil in H.
Defined.

Lemma responses_are_uniform_witness :
  header "Access-Control-Allow-Methods"
    (server origin_hostname (request "GET" "/api/quote" None (Some "127.0.0.1:8889")) quiet)
  = Some "GET, OPTIONS"
  ∧ is_Some (header "Content-Type"
               (server origin_hostname
                  (request "GET" "/api/quote" None (Some "127.0.0.1:8889")) quiet)).
Proof.
  destruct (responses_are_uniform origin_hostname target_parse (incoming "GET" "/api/quote")
              quiet
              (server origin_hostname
                 (request "GET" "/api/quote" None (Some "127.0.0.1:8889")) quiet)
              eq_refl)
    as (_ & Hmethods & _ & _ & Htype & _).
  split; [exact Hmethods|]. apply Htype. discriminate.
Defined.

End ServerMoreFacts.

(** ** The earlier server *)

Module LegacyFacts.
Import Js Handlers LegacyServer.

(** The earlier server always has a command to run: the first candidate
    that is the bare command or an existing file and whose [--version]
    runs, and the bare command [openclaw] when none does. *)
Theorem findOpenclawPath_falls_back (existsSync runsVersion : string → bool)
    (nvmPath : string) :
  findOpenclawPath existsSync runsVersion (possiblePaths nvmPath)
  = default "openclaw"
      (List.find (λ p, (String.eqb p "openclaw" || existsSync p) && runsVersion p)
         (possiblePaths nvmPath))
  ∧ findOpenclawPath existsSync runsVersion (possiblePaths nvmPath) ∈ possiblePaths nvmPath
  ∧ ((∀ p, runsVersion p = false) →
     findOpenclawPath existsSync runsVersion (possiblePaths nvmPath) = "openclaw").
Proof.
  assert (∀ l, findOpenclawPath existsSync runsVersion l
               = default "openclaw"
                   (List.find (λ p, (String.eqb p "openclaw" || existsSync p) && runsVersion p) l))
    as Hfind.
  { induction l as [|p l IH]; simpl; [done|]. by destruct (_ && _). }
  split; [apply Hfind|]. split.
  - rewrite Hfind.
    destruct (List.find _ (possiblePaths nvmPath)) as [p|] eqn:Hp; simpl.
    + apply find_some in Hp as [Hin _]. by apply list_elem_of_In.
    + unfold possiblePaths. set_solver.
  - intros Hnone. rewrite Hfind.
    destruct (List.find _ (possiblePaths nvmPath)) as [p|] eqn:Hp; [|done].
    apply find_some in Hp as [_ Hp]. rewrite Hnone in Hp. by rewrite andb_false_r in Hp.
Qed.

(** The earlier server does not look at the method beyond [OPTIONS]: any
    other method is served as [GET] is; every response allows every
    origin; and the status is 200 or 404. *)
Theorem legacy_server_serves_any_method (method pathname : string) (range : option string)
    (a : Answers) :
  server method pathname range a
  = (if String.eqb method "OPTIONS"
     then {| statusCode := 200; headers := headers_set; body := NoBody |}
     else server "GET" pathname range a)
  ∧ List.find (λ h, String.eqb h.1 "Access-Control-Allow-Origin")
      (headers (server method pathname range a))
    = Some ("Access-Control-Allow-Origin", "*")
  ∧ (statusCode (server method pathname range a) = 200
     ∨ statusCode (server method pathname range a) = 404).
Proof.
  unfold server. destruct (String.eqb method "OPTIONS"); simpl.
  - split; [done|]. split; [done | by left].
  - split; [done|]. repeat case_match; simpl; (split; [done|]); by eauto.
Qed.

End LegacyFacts.
